(** * deployment.js: release automation over Jira, Bitbucket and local git

    A shallow embedding of [src/deployment.js].  The script is a sequential
    orchestration of three external services.  The services are kept
    abstract: every external call goes through one handler, which may answer
    or reject and may change the state of the services.  The script itself is
    written in a small monad that threads the process state, propagates
    JavaScript exceptions and records the observable events (external calls
    and console output) in program order. *)

From Stdlib Require Import String Ascii List Bool Arith NArith Lia.
Import ListNotations.

Set Implicit Arguments.

Local Open Scope string_scope.
Local Open Scope list_scope.

Infix "+++" := String.append (at level 60, right associativity).

(* ------------------------------------------------------------------ *)
(** ** A small JavaScript prelude *)

Module Js.

(** The double-quote character, for template literals that embed it. *)
Definition dq : string := String (ascii_of_nat 34) EmptyString.

(** [`${v}`]: a string renders as itself, [undefined] as its name. *)
Definition tmpl (v : option string) : string :=
  match v with
  | Some s => s
  | None => "undefined"
  end.

(** [arr.includes(x)] on an array of strings (SameValueZero is string
    equality there). *)
Definition includes (arr : list string) (x : string) : bool :=
  existsb (String.eqb x) arr.

(** [arr.includes(x)] where [x] may be [undefined]: an array of strings
    never holds it. *)
Definition includes_opt (arr : list string) (x : option string) : bool :=
  match x with
  | Some s => includes arr s
  | None => false
  end.

(** lodash [_.uniq]: scan left to right, keep a value when it is not yet
    among the values kept. *)
Definition uniq_step (seen : list string) (x : string) : list string :=
  if includes seen x then seen else seen ++ [x].

Definition uniq (arr : list string) : list string :=
  fold_left uniq_step arr [].

(** [arr.join(sep)] on an array of strings. *)
Fixpoint join (sep : string) (arr : list string) : string :=
  match arr with
  | [] => EmptyString
  | [x] => x
  | x :: rest => x +++ sep +++ join sep rest
  end.

(** [arr[i]]: [undefined] out of range. *)
Definition at_index {A} (arr : list A) (i : nat) : option A := nth_error arr i.

(** The replacement-template expansion of [String.prototype.replace]
    (GetSubstitution) for a string pattern, which has no capture groups:
    [$$], [$&], [$`] and [$'] are special, every other [$] is literal. *)
Fixpoint getSubstitution (matched before after template : string) : string :=
  match template with
  | EmptyString => EmptyString
  | String c EmptyString => String c EmptyString
  | String c (String d rest as tl) =>
      if Ascii.eqb c "$" then
        if Ascii.eqb d "$" then String "$" (getSubstitution matched before after rest)
        else if Ascii.eqb d "&" then matched +++ getSubstitution matched before after rest
        else if Ascii.eqb d "`" then before +++ getSubstitution matched before after rest
        else if Ascii.eqb d "'" then after +++ getSubstitution matched before after rest
        else String c (getSubstitution matched before after tl)
      else String c (getSubstitution matched before after tl)
  end.

(** [s.replace(pattern, replacement)] with a string pattern: only the first
    occurrence is replaced; without an occurrence [s] is returned. *)
Definition replace (s pattern replacement : string) : string :=
  match String.index 0 pattern s with
  | None => s
  | Some pos =>
      let before := String.substring 0 pos s in
      let tailPos := pos + String.length pattern in
      let after := String.substring tailPos (String.length s - tailPos) s in
      before +++ getSubstitution pattern before after replacement +++ after
  end.

(** The digit a character stands for, if it is one. *)
Definition digit_of (c : ascii) : option N :=
  let n := N_of_ascii c in
  if N.leb 48 n && N.leb n 57 then Some (N.sub n 48) else None.

(** The number a string of digits denotes, read after [acc]. *)
Fixpoint digits_value (s : string) (acc : N) : option N :=
  match s with
  | EmptyString => Some acc
  | String c rest =>
      match digit_of c with
      | Some d => digits_value rest (N.add (N.mul 10 acc) d)
      | None => None
      end
  end.

(** The array index a property key denotes, if it is one: the canonical
    decimal string (no leading zero) of an integer from 0 to 2^32 - 2. *)
Definition array_index (k : string) : option N :=
  match k with
  | EmptyString => None
  | String c rest =>
      if Ascii.eqb c "0" && negb (String.eqb rest EmptyString) then None
      else
        match digits_value k 0 with
        | Some n => if N.ltb n 4294967295 then Some n else None
        | None => None
        end
  end.

(** A plain object used as a map with string keys, in the order in which
    JavaScript enumerates them (the order [console.table] shows): the keys
    that are array indices first, in ascending numeric order, then the other
    keys in insertion order. *)
Definition Obj (V : Type) : Type := list (string * V).

Fixpoint obj_get {V} (o : Obj V) (k : string) : option V :=
  match o with
  | [] => None
  | (k', v) :: rest => if String.eqb k k' then Some v else obj_get rest k
  end.

(** Overwrite in place when the key exists, else add at the end. *)
Fixpoint obj_put {V} (o : Obj V) (k : string) (v : V) : Obj V :=
  match o with
  | [] => [(k, v)]
  | (k', v') :: rest =>
      if String.eqb k k' then (k', v) :: rest else (k', v') :: obj_put rest k v
  end.

(** Add a new key that is the array index [n], after the smaller indices. *)
Fixpoint obj_insert_index {V} (o : Obj V) (n : N) (k : string) (v : V) : Obj V :=
  match o with
  | [] => [(k, v)]
  | (k', v') :: rest =>
      match array_index k' with
      | Some n' =>
          if N.ltb n' n then (k', v') :: obj_insert_index rest n k v
          else (k, v) :: (k', v') :: rest
      | None => (k, v) :: (k', v') :: rest
      end
  end.

(** [o[k] = v]: an existing key keeps its place; a new array index goes
    among the indices, any other new key at the end. *)
Definition obj_set {V} (o : Obj V) (k : string) (v : V) : Obj V :=
  match obj_get o k, array_index k with
  | None, Some n => obj_insert_index o n k v
  | _, _ => obj_put o k v
  end.

End Js.

(* ------------------------------------------------------------------ *)
(** ** Data received from the services *)

(** A pull request of the development panel, with the fields the script
    reads: [p.repositoryName] and [p.author], which may be absent and is
    given here by its [name]. *)
Record PullRequest := {
  repositoryName : string;
  author : option string
}.

(** One entry of [detail.detail]. *)
Record DetailEntry := {
  pullRequests : list PullRequest
}.

(** The answer of the dev-status detail endpoint. *)
Record DevStatus := {
  detail : list DetailEntry
}.

(** One element of [issue.fields.issuelinks]: either side may be absent;
    only the key of the linked issue is read. *)
Record IssueLink := {
  inwardIssue : option string;
  outwardIssue : option string
}.

Record Fields := {
  summary : string;
  status_name : string;
  issuelinks : list IssueLink;
  customfield_10041 : option string
}.

Record Issue := {
  id : string;
  key : string;
  fields : Fields
}.

(** The answer of the search endpoint. *)
Record Release := {
  issues : list Issue
}.

(** The object returned by [git.status()], as far as it is used. *)
Record StatusSummary := {
  isClean : bool
}.

(** [process.env] after dotenv has run. *)
Record Env := {
  HOME : option string;
  BITBUCKET_USERNAME : option string;
  BITBUCKET_PASSWORD : option string;
  JIRA_USERNAME : option string;
  JIRA_API_TOKEN : option string
}.

(** A thrown value or promise rejection: errors raised by the language
    itself and errors coming from a service or library. *)
Inductive Exn :=
| TypeError (message : string)
| ServiceError (message : string).

Definition message_of (e : Exn) : string :=
  match e with
  | TypeError m => m
  | ServiceError m => m
  end.

(* ------------------------------------------------------------------ *)
(** ** External calls *)

(** The options object given to [new JiraClient]. *)
Record JiraClient := {
  protocol : string;
  host : string;
  username : option string;
  password : option string;
  apiVersion : string;
  intermediatePath : option string
}.

(** The body of the pull-request creation request. *)
Record PrRequestData := {
  title : string;
  description : string;
  source_branch_name : string;
  destination_branch_name : string
}.

Record Auth := {
  auth_username : option string;
  auth_password : option string
}.

(** The simple-git methods the script calls, with their arguments. *)
Inductive GitOp :=
| Status
| Stash
| Fetch
| Checkout (what : string)
| Pull
| CheckoutLocalBranch (branchName : string)
| Push (remote branch : string) (options : list string).

Inductive Call :=
| SearchJira (client : JiraClient) (jql : string)
| GenericGet (client : JiraClient) (path : string)
| SimpleGit (baseDir : string)
| Git (baseDir : string) (op : GitOp)
| AxiosPost (url : string) (data : PrRequestData) (auth : Auth).

(** What a call resolves to when it does not reject. *)
Definition Resp (c : Call) : Type :=
  match c with
  | SearchJira _ _ => Release
  | GenericGet _ _ => DevStatus
  | Git _ Status => StatusSummary
  | _ => unit
  end.

(* ------------------------------------------------------------------ *)
(** ** Observable events *)

Inductive LogArg :=
| Str (s : string)
| Err (e : Exn).

(** A row and the table of the check action. *)
Definition Row : Type := Js.Obj (option string).
Definition Table : Type := Js.Obj Row.

Inductive Event :=
| Invoke (c : Call)
| ConsoleLog (args : list LogArg)
| ConsoleError (args : list LogArg)
| ConsoleTable (t : Table).

(* ------------------------------------------------------------------ *)
(** ** The effect monad *)

Inductive Outcome (A : Type) :=
| Returned (a : A)
| Thrown (e : Exn).
Arguments Returned {A} a.
Arguments Thrown {A} e.

Section Effects.

(** State of the external services (tracker, hosting provider, working
    copies and remotes). *)
Variable W : Type.

(** The process: the services it talks to and [process.exitCode]. *)
Record Process := {
  services : W;
  exitCode : option nat
}.

Record Run (A : Type) := mkRun {
  outcome : Outcome A;
  final : Process;
  trace : list Event
}.

Definition M (A : Type) : Type := Process -> Run A.

Definition ret {A} (a : A) : M A :=
  fun p => mkRun (Returned a) p [].

Definition throw {A} (e : Exn) : M A :=
  fun p => mkRun (Thrown e) p [].

Definition bind {A B} (m : M A) (k : A -> M B) : M B :=
  fun p =>
    let r := m p in
    match outcome r with
    | Returned a =>
        let r' := k a (final r) in
        mkRun (outcome r') (final r') (trace r ++ trace r')
    | Thrown e => mkRun (Thrown e) (final r) (trace r)
    end.

(** [try { body } catch (error) { handler }] *)
Definition try_catch {A} (body : M A) (handler : Exn -> M A) : M A :=
  fun p =>
    let r := body p in
    match outcome r with
    | Returned a => r
    | Thrown e =>
        let r' := handler e (final r) in
        mkRun (outcome r') (final r') (trace r ++ trace r')
    end.

Definition emit (ev : Event) : M unit :=
  fun p => mkRun (Returned tt) p [ev].

Definition console_log (args : list LogArg) : M unit := emit (ConsoleLog args).
Definition console_error (args : list LogArg) : M unit := emit (ConsoleError args).
Definition console_table (t : Table) : M unit := emit (ConsoleTable t).

(** How the services answer a call: a rejection or a value, and their
    next state. *)
Variable handle : forall c : Call, W -> (Exn + Resp c) * W.

(** [await service.method(args)] *)
Definition call (c : Call) : M (Resp c) :=
  fun p =>
    let (answer, w') := handle c (services p) in
    mkRun (match answer with
           | inl e => Thrown e
           | inr x => Returned x
           end)
          {| services := w'; exitCode := exitCode p |}
          [Invoke c].

End Effects.

Arguments ret {W A} a.
Arguments throw {W A} e.
Arguments bind {W A B} m k.
Arguments try_catch {W A} body handler.
Arguments emit {W} ev.
Arguments console_log {W} args.
Arguments console_error {W} args.
Arguments console_table {W} t.
Arguments call {W} handle c.
Arguments mkRun {W A} outcome final trace.
Arguments outcome {W A} r.
Arguments final {W A} r.
Arguments trace {W A} r.
Arguments services {W} p.
Arguments exitCode {W} p.

Declare Scope js_scope.
Delimit Scope js_scope with js.
Notation "x <- m ;; k" := (bind m (fun x => k))
  (at level 61, m at next level, right associativity) : js_scope.
Notation "m ;; k" := (bind m (fun _ => k))
  (at level 61, right associativity) : js_scope.
Local Open Scope js_scope.

(** [for (const x of arr) { body }] *)
Fixpoint for_of {W X} (arr : list X) (body : X -> M W unit) : M W unit :=
  match arr with
  | [] => ret tt
  | x :: rest => body x ;; for_of rest body
  end.

(** [for (var i = 0; i < arr.length; i++) { body }] around a local
    variable [acc] that the body updates. *)
Fixpoint for_index {W X S} (arr : list X) (acc : S) (body : S -> X -> M W S) : M W S :=
  match arr with
  | [] => ret acc
  | x :: rest => acc' <- body acc x ;; for_index rest acc' body
  end.

(* ------------------------------------------------------------------ *)
(** ** The script *)

(** Reading a property of [undefined] throws. *)
Definition property_of_undefined (name : string) : Exn :=
  TypeError ("Cannot read properties of undefined (reading '" +++ name +++ "')").

Definition undefined_property {W A} (name : string) : M W A :=
  throw (property_of_undefined name).

(** [release.issues] *)
Definition get_issues {W} (release : option Release) : M W (list Issue) :=
  match release with
  | Some r => ret (issues r)
  | None => undefined_property "issues"
  end.

(** [detail.detail[0].pullRequests] *)
Definition first_pullRequests {W} (d : DevStatus) : M W (list PullRequest) :=
  match Js.at_index (detail d) 0 with
  | Some entry => ret (pullRequests entry)
  | None => undefined_property "pullRequests"
  end.

(** [p.inwardIssue ? p.inwardIssue.key : p.outwardIssue.key] *)
Definition link_key {W} (p : IssueLink) : M W string :=
  match inwardIssue p with
  | Some k => ret k
  | None =>
      match outwardIssue p with
      | Some k => ret k
      | None => undefined_property "key"
      end
  end.

(** [p.author.name] *)
Definition author_name {W} (p : PullRequest) : M W string :=
  match author p with
  | Some name => ret name
  | None => undefined_property "name"
  end.

(** [arr.map(f)] with a callback that may throw. *)
Fixpoint map_m {W X Y} (f : X -> M W Y) (arr : list X) : M W (list Y) :=
  match arr with
  | [] => ret []
  | x :: rest => y <- f x ;; ys <- map_m f rest ;; ret (y :: ys)
  end.

Definition RELEASE_ACTIONS : list string := ["check"; "release_branch"; "release_pr"].

(** List of repos deployed by Open Platform *)
Definition WHITELISTED_REPOS : list string :=
  [ "developer-api";
    "developer-center";
    "developer-oauth";
    "developer-event";
    "mini-app-store";
    "sub9-api";
    "metafield-api";
    "multipass-api";
    "merchant-event-serializer";
    "storefront-api" ].

Definition BITBUCKET_WORKSPACE : string := "starlinglabs".

Definition BITBUCKET_API_URL : string :=
  "https://api.bitbucket.org/2.0/repositories/" +++ BITBUCKET_WORKSPACE +++ "/REPO_SLUG/".

Definition JIRA_BASE_URL : string := "shopline.atlassian.net".

Section Script.

Variable W : Type.
Variable handle : forall c : Call, W -> (Exn + Resp c) * W.
Variable env : Env.

Local Abbreviation await c := (call handle c).

(** Local directory of repositories *)
Definition REPO_BASE_PATH : string := Js.tmpl (HOME env) +++ "/Documents/".

Definition jira : JiraClient :=
  {| protocol := "https";
     host := JIRA_BASE_URL;
     username := JIRA_USERNAME env;
     password := JIRA_API_TOKEN env;
     apiVersion := "2";
     intermediatePath := None |}.

(** Only override intermediatePath for genericGet *)
Definition jiraForGenericGet : JiraClient :=
  {| protocol := "https";
     host := JIRA_BASE_URL;
     username := JIRA_USERNAME env;
     password := JIRA_API_TOKEN env;
     apiVersion := "2";
     intermediatePath := Some "/rest" |}.

(** Get PRs by Jira issue id *)
Definition getPRsFromJira (issueId : string) : Call :=
  GenericGet jiraForGenericGet
    ("/dev-status/latest/issue/detail?issueId=" +++ issueId
       +++ "&applicationType=bitbucket&dataType=pullrequest").

Section Release.

(** [process.argv[3]] *)
Variable releaseVersion : option string.

Definition releaseBranchName : string := "release/" +++ Js.tmpl releaseVersion.

(** Bitbucket create release PR API request data *)
Definition BITBUCKET_API_CREATE_PR_REQUEST_DATA : PrRequestData :=
  {| title := "Release " +++ Js.tmpl releaseVersion;
     description := EmptyString;
     source_branch_name := releaseBranchName;
     destination_branch_name := "master" |}.

Definition release_jql : string :=
  "project = DC AND fixVersion = " +++ Js.dq +++ Js.tmpl releaseVersion +++ Js.dq.

(** Get Jira card info from a release: [undefined] after a failure. *)
Definition getJiraCardsFromRelease : M W (option Release) :=
  try_catch
    (let jql := release_jql in
     r <- await (SearchJira jira jql) ;;
     ret (Some r))
    (fun error =>
       console_error [Str "Error retrieving Jira cards from the release:";
                      Str (message_of error)] ;;
       ret None).

(** The body of the loop of [getReposFromRelease], around its local
    variable [repos]. *)
Definition collect_issue_repos (repos : list string) (issue : Issue) : M W (list string) :=
  d <- await (getPRsFromJira (id issue)) ;;
  prs <- first_pullRequests d ;;
  ret (repos ++ Js.uniq (map repositoryName prs)).

(** Get all repos from a release *)
Definition getReposFromRelease (release : option Release) : M W (list string) :=
  release_issues <- get_issues release ;;
  repos <- for_index release_issues [] collect_issue_repos ;;
  ret (Js.uniq repos).

(** *** Deployment check *)

(** The row of one issue.  The script stores an empty object under the
    issue key and then fills its columns one by one; the table is local to
    the function, so only the finished row is ever seen. *)
Definition row_of (issue : Issue) (prs : list PullRequest) (authors linked : list string)
  : Row :=
  let row := [] in
  let row := Js.obj_set row "Summary" (Some (summary (fields issue))) in
  let row := Js.obj_set row "Status" (Some (status_name (fields issue))) in
  let row := Js.obj_set row "Repo"
               (Some (Js.join "," (Js.uniq (map repositoryName prs)))) in
  let row := Js.obj_set row "Author(s)"
               (Some (Js.join "," (Js.uniq authors))) in
  let row := Js.obj_set row "Linked issues" (Some (Js.join "," (Js.uniq linked))) in
  Js.obj_set row "Deployment remarks" (customfield_10041 (fields issue)).

(** The body of the loop of [displayReleaseDetails], around its local
    variable [table]. *)
Definition add_issue_row (table : Table) (issue : Issue) : M W Table :=
  let issueKey := key issue in
  d <- await (getPRsFromJira (id issue)) ;;
  prs <- first_pullRequests d ;;
  authors <- map_m author_name prs ;;
  linked <- map_m link_key (issuelinks (fields issue)) ;;
  ret (Js.obj_set table issueKey (row_of issue prs authors linked)).

(** Call the function to get Jira card info from a release *)
Definition displayReleaseDetails : M W unit :=
  jiraRes <- getJiraCardsFromRelease ;;
  release_issues <- get_issues jiraRes ;;
  table <- for_index release_issues ([] : Table) add_issue_row ;;
  console_table table.

(** *** Create release branches *)

(** Check if there are any uncommitted changes and stash them if necessary *)
Definition stashChangesIfNeeded (baseDir : string) : M W unit :=
  status <- await (Git baseDir Status) ;;
  if negb (isClean status) then
    console_log [Str "Stashing uncommitted changes..."] ;;
    await (Git baseDir Stash)
  else ret tt.

Definition checkoutBranch (repository branchName : string) : M W unit :=
  let repositoryPath := REPO_BASE_PATH +++ repository in
  await (SimpleGit repositoryPath) ;;
  stashChangesIfNeeded repositoryPath ;;
  await (Git repositoryPath Fetch) ;;
  await (Git repositoryPath (Checkout "dev")) ;;
  await (Git repositoryPath Pull) ;;
  await (Git repositoryPath (CheckoutLocalBranch branchName)) ;;
  await (Git repositoryPath (Push "origin" branchName [])).

Definition branch_start_notice (repository : string) : LogArg :=
  Str ("[-] Creating release branch '" +++ releaseBranchName
         +++ "' in repository '" +++ repository +++ "'...").

Definition branch_success_notice (repository : string) : LogArg :=
  Str ("[O] Successfully created release branch for repository '" +++ repository +++ "'").

Definition branch_error_notice (repository : string) : LogArg :=
  Str ("[X] Error occured when creating release branch for repository '"
         +++ repository +++ "':").

Definition branch_skip_notice (repository : string) : LogArg :=
  Str ("[!] " +++ repository
         +++ " should not be deployed by Open Platform, skip creating release branch").

(** The body of the loop of [createReleaseBranches]. *)
Definition branch_repository (repository : string) : M W unit :=
  (if Js.includes WHITELISTED_REPOS repository then
     console_log [branch_start_notice repository] ;;
     try_catch
       (checkoutBranch repository releaseBranchName ;;
        console_log [branch_success_notice repository])
       (fun error =>
          console_error [branch_error_notice repository; Err error])
   else
     console_log [branch_skip_notice repository]) ;;
  console_log [].

(** Create release git branch release/xxx *)
Definition createReleaseBranches : M W unit :=
  jiraRes <- getJiraCardsFromRelease ;;
  releaseRepos <- getReposFromRelease jiraRes ;;
  for_of releaseRepos branch_repository.

(** *** Create release PRs *)

(** Call Bitbucket API to create PR, i.e. release/xxx --> master *)
Definition createBitbucketPr (repo : string) : M W unit :=
  let apiUrl := Js.replace BITBUCKET_API_URL "REPO_SLUG" repo +++ "pullrequests" in
  await (AxiosPost apiUrl BITBUCKET_API_CREATE_PR_REQUEST_DATA
           {| auth_username := BITBUCKET_USERNAME env;
              auth_password := BITBUCKET_PASSWORD env |}).

Definition pr_start_notice (repository : string) : LogArg :=
  Str ("[-] Creating release PR for repository '" +++ repository +++ "'...").

Definition pr_success_notice (repository : string) : LogArg :=
  Str ("[O] Successfully create release PR for repository '" +++ repository +++ "'").

Definition pr_error_notice (repository : string) : LogArg :=
  Str ("[X] Error occured when creating release PR for repository '" +++ repository +++ "':").

Definition pr_skip_notice (repository : string) : LogArg :=
  Str ("[!] " +++ repository
         +++ " should not be deployed by Open Platform, skip creating release PR").

(** The body of the loop of [createReleasePRs]. *)
Definition pr_repository (repository : string) : M W unit :=
  (if Js.includes WHITELISTED_REPOS repository then
     console_log [pr_start_notice repository] ;;
     try_catch
       (createBitbucketPr repository ;;
        console_log [pr_success_notice repository])
       (fun error =>
          console_error [pr_error_notice repository; Err error])
   else
     console_log [pr_skip_notice repository]) ;;
  console_log [].

(** Create release PRs for each repo in a relase *)
Definition createReleasePRs : M W unit :=
  jiraRes <- getJiraCardsFromRelease ;;
  releaseRepos <- getReposFromRelease jiraRes ;;
  for_of releaseRepos pr_repository.

End Release.

(** *** Main control *)

Definition invalid_action_notice (releaseAction : option string) : LogArg :=
  Str ("Invalid action " +++ Js.dq +++ Js.tmpl releaseAction +++ Js.dq +++ "!").

(** The whole script, top to bottom, for the command line [argv]
    ([process.argv]: the interpreter, the script, then the arguments).  The
    promise of the entry point is not awaited by anything: a [Thrown] outcome
    is an unhandled rejection. *)
Definition main (argv : list string) : M W unit :=
  let releaseAction := Js.at_index argv 2 in
  if negb (Js.includes_opt RELEASE_ACTIONS releaseAction) then
    console_error [invalid_action_notice releaseAction]
  else
    let releaseVersion := Js.at_index argv 3 in
    match releaseAction with
    | Some action =>
        if String.eqb action "check" then displayReleaseDetails releaseVersion
        else if String.eqb action "release_branch" then createReleaseBranches releaseVersion
        else if String.eqb action "release_pr" then createReleasePRs releaseVersion
        else ret tt
    | None => ret tt
    end.

End Script.

(* ------------------------------------------------------------------ *)
(** ** A concrete tracker, hosting provider and set of working copies

    Release [2.0.0] has two issues: [DC-1] links pull requests in
    [developer-api] (twice) and [scratchpad], [DC-2] links one in
    [developer-api] and one in [storefront-api]; [DC-3] is an issue without
    pull requests.  Whatever the query, the search answers with release
    [2.0.0].  Every working copy has uncommitted changes.  The state of the
    services is the list of calls they have served.  A call rejects when
    [faulty] says so. *)

Module Scenario.

Definition pr (repo author : string) : PullRequest :=
  {| repositoryName := repo; author := Some author |}.

Definition issue (i k : string) (links : list IssueLink) : Issue :=
  {| id := i; key := k;
     fields := {| summary := "Summary of " +++ k; status_name := "Done";
                  issuelinks := links; customfield_10041 := None |} |}.

Definition issueX : Issue :=
  issue "1001" "DC-1" [ {| inwardIssue := Some "DC-2"; outwardIssue := None |} ].
Definition issueY : Issue :=
  issue "1002" "DC-2" [ {| inwardIssue := None; outwardIssue := Some "DC-1" |} ].
Definition issueZ : Issue := issue "1003" "DC-3" [].

Definition release_2_0_0 : Release := {| issues := [issueX; issueY] |}.

Definition env : Env :=
  {| HOME := Some "/home/dev"; BITBUCKET_USERNAME := Some "bot";
     BITBUCKET_PASSWORD := Some "secret"; JIRA_USERNAME := Some "bot@example.org";
     JIRA_API_TOKEN := Some "token" |}.

Definition detail_path (issueId : string) : string :=
  match getPRsFromJira env issueId with
  | GenericGet _ path => path
  | _ => EmptyString
  end.

Definition prsX : list PullRequest :=
  [pr "developer-api" "ann"; pr "scratchpad" "bob"; pr "developer-api" "bob"].

Definition prsY : list PullRequest :=
  [pr "developer-api" "cy"; pr "storefront-api" "cy"].

Definition dev_status (path : string) : DevStatus :=
  if String.eqb path (detail_path "1001") then {| detail := [ {| pullRequests := prsX |} ] |}
  else if String.eqb path (detail_path "1002") then {| detail := [ {| pullRequests := prsY |} ] |}
  else {| detail := [ {| pullRequests := [] |} ] |}.

Definition answer (c : Call) : Resp c :=
  match c return Resp c with
  | SearchJira _ _ => release_2_0_0
  | GenericGet _ path => dev_status path
  | SimpleGit _ => tt
  | Git _ op =>
      match op return Resp (Git EmptyString op) with
      | Status => {| isClean := false |}
      | _ => tt
      end
  | AxiosPost _ _ _ => tt
  end.

Definition World : Type := list Call.

Definition handle (faulty : Call -> bool) (c : Call) (w : World) : (Exn + Resp c) * World :=
  (if faulty c then inl (ServiceError "service unavailable") else inr (answer c), w ++ [c]).

Definition no_fault (c : Call) : bool := false.

Definition search_fails (c : Call) : bool :=
  match c with SearchJira _ _ => true | _ => false end.

Definition detail_fails_for (issueId : string) (c : Call) : bool :=
  match c with
  | GenericGet _ path => String.eqb path (detail_path issueId)
  | _ => false
  end.

Definition pull_fails_in (repository : string) (c : Call) : bool :=
  match c with
  | Git d Pull => String.eqb d (REPO_BASE_PATH env +++ repository)
  | _ => false
  end.

Definition post_fails (c : Call) : bool :=
  match c with AxiosPost _ _ _ => true | _ => false end.

(** Both operators fail on one repository: its pull and the post to its
    endpoint reject. *)
Definition operators_fail_in (repository : string) (c : Call) : bool :=
  match c with
  | Git d Pull => String.eqb d (REPO_BASE_PATH env +++ repository)
  | AxiosPost url _ _ =>
      String.eqb url
        ("https://api.bitbucket.org/2.0/repositories/starlinglabs/" +++ repository
           +++ "/pullrequests")
  | _ => false
  end.

Definition start : Process World := {| services := []; exitCode := None |}.

(** The search of release [2.0.0] and the state of the services after it. *)
Definition search : Call := SearchJira (jira env) (release_jql (Some "2.0.0")).

Definition searched : Process World := {| services := [search]; exitCode := None |}.

(** The state of the services after the resolution of release [2.0.0]. *)
Definition resolved : Process World :=
  {| services := [search; getPRsFromJira env "1001"; getPRsFromJira env "1002"];
     exitCode := None |}.

Definition argv (arguments : list string) : list string :=
  "node" :: "deployment.js" :: arguments.

(** The same services with another release behind the search. *)
Definition answer_for (release : Release) (c : Call) : Resp c :=
  match c return Resp c with
  | SearchJira _ _ => release
  | GenericGet client path => answer (GenericGet client path)
  | SimpleGit d => answer (SimpleGit d)
  | Git d op => answer (Git d op)
  | AxiosPost url data auth => answer (AxiosPost url data auth)
  end.

Definition handle_for (release : Release) (c : Call) (w : World)
  : (Exn + Resp c) * World :=
  (inr (answer_for release c), w ++ [c]).

(** The same services when the development panel answers every detail
    request without any entry. *)
Definition answer_bare (c : Call) : Resp c :=
  match c return Resp c with
  | SearchJira client jql => answer (SearchJira client jql)
  | GenericGet _ _ => {| detail := [] |}
  | SimpleGit d => answer (SimpleGit d)
  | Git d op => answer (Git d op)
  | AxiosPost url data auth => answer (AxiosPost url data auth)
  end.

Definition handle_bare (c : Call) (w : World) : (Exn + Resp c) * World :=
  (inr (answer_bare c), w ++ [c]).

(** An issue with a link that names no issue on either side. *)
Definition issueB : Issue :=
  issue "1004" "DC-4" [ {| inwardIssue := Some "DC-1"; outwardIssue := None |};
                        {| inwardIssue := None; outwardIssue := None |} ].

Definition release_with_bad_link : Release := {| issues := [issueX; issueB; issueY] |}.

Definition release_without_issues : Release := {| issues := [] |}.

End Scenario.

(* ------------------------------------------------------------------ *)
(** ** Reading a trace *)

(** The external calls of a trace, in order. *)
Fixpoint calls_of (t : list Event) : list Call :=
  match t with
  | [] => []
  | Invoke c :: rest => c :: calls_of rest
  | _ :: rest => calls_of rest
  end.

(** The working copies the Branch Operator touched: the directory of every
    simple-git call. *)
Fixpoint branch_targets (cs : list Call) : list string :=
  match cs with
  | [] => []
  | SimpleGit d :: rest => d :: branch_targets rest
  | Git d _ :: rest => d :: branch_targets rest
  | _ :: rest => branch_targets rest
  end.

(** The endpoints the Pull Request Operator posted to. *)
Fixpoint pr_targets (cs : list Call) : list string :=
  match cs with
  | [] => []
  | AxiosPost url _ _ :: rest => url :: pr_targets rest
  | _ :: rest => pr_targets rest
  end.

(** The request bodies the Pull Request Operator sent. *)
Fixpoint pr_requests (cs : list Call) : list PrRequestData :=
  match cs with
  | [] => []
  | AxiosPost _ data _ :: rest => data :: pr_requests rest
  | _ :: rest => pr_requests rest
  end.

(** The branch names given to [checkoutLocalBranch] and [push]. *)
Fixpoint created_branches (cs : list Call) : list string :=
  match cs with
  | [] => []
  | Git _ (CheckoutLocalBranch b) :: rest => b :: created_branches rest
  | Git _ (Push _ b _) :: rest => b :: created_branches rest
  | _ :: rest => created_branches rest
  end.

(** Calls of the two operators, as opposed to reads of the tracker. *)
Definition is_operator_call (c : Call) : bool :=
  match c with
  | SimpleGit _ | Git _ _ | AxiosPost _ _ _ => true
  | SearchJira _ _ | GenericGet _ _ => false
  end.

Definition operator_calls (t : list Event) : list Call :=
  filter is_operator_call (calls_of t).

(** A push records an upstream for the branch only when it is asked to,
    with [-u] or [--set-upstream] among its options. *)
Definition requests_upstream (c : Call) : bool :=
  match c with
  | Git _ (Push _ _ options) =>
      Js.includes options "-u" || Js.includes options "--set-upstream"
  | _ => false
  end.

(** The endpoint for a repository slug, spelled out. *)
Definition pullrequests_url (repo : string) : string :=
  "https://api.bitbucket.org/2.0/repositories/starlinglabs/" +++ repo +++ "/pullrequests".

(** The distinct repository names of one issue's pull requests, and of all
    issues' pull requests, as sets. *)
Definition referenced (prss : list (list PullRequest)) (r : string) : Prop :=
  exists prs p, In prs prss /\ In p prs /\ repositoryName p = r.

(** What the console shows once an operator is done with an accepted
    repository, spelled out: the success line, or the error line with the
    repository name followed by the error. *)
Definition branch_verdict (r : string) (o : Outcome unit) : Event :=
  match o with
  | Returned _ =>
      ConsoleLog [Str ("[O] Successfully created release branch for repository '" +++ r +++ "'")]
  | Thrown e =>
      ConsoleError
        [Str ("[X] Error occured when creating release branch for repository '" +++ r +++ "':");
         Err e]
  end.

Definition pr_verdict (r : string) (o : Outcome unit) : Event :=
  match o with
  | Returned _ =>
      ConsoleLog [Str ("[O] Successfully create release PR for repository '" +++ r +++ "'")]
  | Thrown e =>
      ConsoleError
        [Str ("[X] Error occured when creating release PR for repository '" +++ r +++ "':");
         Err e]
  end.

(** The working copies opened with [simpleGit], in order. *)
Fixpoint opened (cs : list Call) : list string :=
  match cs with
  | [] => []
  | SimpleGit d :: rest => d :: opened rest
  | _ :: rest => opened rest
  end.

(** The queries sent to the search endpoint, in order. *)
Fixpoint searches (cs : list Call) : list string :=
  match cs with
  | [] => []
  | SearchJira _ jql :: rest => jql :: searches rest
  | _ :: rest => searches rest
  end.

(** The tables printed, in order. *)
Fixpoint tables_of (t : list Event) : list Table :=
  match t with
  | [] => []
  | ConsoleTable table :: rest => table :: tables_of rest
  | _ :: rest => tables_of rest
  end.

(** Whether a string holds the character that starts a replacement
    pattern. *)
Fixpoint has_dollar (s : string) : bool :=
  match s with
  | EmptyString => false
  | String c rest => Ascii.eqb c "$" || has_dollar rest
  end.

(** The values of a list in the order of their first occurrence. *)
Fixpoint first_occurrences (l : list string) : list string :=
  match l with
  | [] => []
  | a :: rest => a :: filter (fun x => negb (String.eqb x a)) (first_occurrences rest)
  end.

(** The key an issue link shows: the inward issue's when there is one,
    else the outward issue's, if any. *)
Definition link_key_of (p : IssueLink) : option string :=
  match inwardIssue p with
  | Some k => Some k
  | None => outwardIssue p
  end.

(** The keys a list of issue links shows, if every link has one. *)
Fixpoint link_keys (links : list IssueLink) : option (list string) :=
  match links with
  | [] => Some []
  | p :: rest =>
      match link_key_of p, link_keys rest with
      | Some k, Some ks => Some (k :: ks)
      | _, _ => None
      end
  end.

(** The names of the authors of a list of pull requests, if every pull
    request has an author. *)
Fixpoint author_names (prs : list PullRequest) : option (list string) :=
  match prs with
  | [] => Some []
  | p :: rest =>
      match author p, author_names rest with
      | Some name, Some names => Some (name :: names)
      | _, _ => None
      end
  end.

(** The author names the check action shows for an issue's pull requests
    (none when some pull request has no author, in which case no row is
    shown at all). *)
Definition shown_authors (prs : list PullRequest) : list string :=
  match author_names prs with
  | Some names => names
  | None => []
  end.

(** The row the check action shows for an issue, column by column. *)
Definition shown_row (issue : Issue) (prs : list PullRequest) (linked : list string) : Row :=
  [ ("Summary", Some (summary (fields issue)));
    ("Status", Some (status_name (fields issue)));
    ("Repo", Some (Js.join "," (first_occurrences (map repositoryName prs))));
    ("Author(s)", Some (Js.join "," (first_occurrences (shown_authors prs))));
    ("Linked issues", Some (Js.join "," (first_occurrences linked)));
    ("Deployment remarks", customfield_10041 (fields issue)) ].



(** The distinct repository names of each issue's pull requests, issue
    after issue. *)
Definition repo_names (prss : list (list PullRequest)) : list string :=
  flat_map (fun prs => Js.uniq (map repositoryName prs)) prss.

(** Every call of the Branch Operator is one of these, on the working copy
    of its repository and with the branch name it was given. *)
Definition branch_operator_calls (dir b : string) : list Call :=
  [ SimpleGit dir; Git dir Status; Git dir Stash; Git dir Fetch;
    Git dir (Checkout "dev"); Git dir Pull;
    Git dir (CheckoutLocalBranch b); Git dir (Push "origin" b []) ].

(** The notice that ends the handling of an accepted repository. *)
Definition branch_result_notice (r : string) (o : Outcome unit) : Event :=
  match o with
  | Returned _ => ConsoleLog [branch_success_notice r]
  | Thrown e => ConsoleError [branch_error_notice r; Err e]
  end.

Definition pr_result_notice (r : string) (o : Outcome unit) : Event :=
  match o with
  | Returned _ => ConsoleLog [pr_success_notice r]
  | Thrown e => ConsoleError [pr_error_notice r; Err e]
  end.

(* ------------------------------------------------------------------ *)
(** ** Reference descriptions of the services' side of a run *)

Section Reference.

Variable W : Type.
Variable handle : forall c : Call, W -> (Exn + Resp c) * W.
Variable env : Env.

(** The pull requests the tracker reports for a list of issues, asked one
    issue after the other from state [w]: the first development-panel entry
    of each answer.  The first rejection, or the first answer without an
    entry, ends the enquiry. *)
Fixpoint tracker_pull_requests (l : list Issue) (w : W)
  : (Exn + list (list PullRequest)) * W :=
  match l with
  | [] => (inr [], w)
  | i :: rest =>
      match handle (getPRsFromJira env (id i)) w with
      | (inl e, w') => (inl e, w')
      | (inr d, w') =>
          match detail d with
          | [] => (inl (property_of_undefined "pullRequests"), w')
          | entry :: _ =>
              match tracker_pull_requests rest w' with
              | (inl e, w'') => (inl e, w'')
              | (inr prss, w'') => (inr (pullRequests entry :: prss), w'')
              end
          end
      end
  end.

(** Calls made one after the other until one rejects: the error if any, the
    state reached and the calls actually made. *)
Fixpoint perform (steps : list Call) (w : W) : option Exn * W * list Call :=
  match steps with
  | [] => (None, w, [])
  | c :: rest =>
      match handle c w with
      | (inl e, w') => (Some e, w', [c])
      | (inr _, w') =>
          let '(r, w'', cs) := perform rest w' in (r, w'', c :: cs)
      end
  end.

(** The steps of the Branch Operator after the status query. *)
Definition steps_after_status (dir branchName : string) (status : StatusSummary)
  : list Call :=
  (if isClean status then [] else [Git dir Stash])
    ++ [ Git dir Fetch;
         Git dir (Checkout "dev");
         Git dir Pull;
         Git dir (CheckoutLocalBranch branchName);
         Git dir (Push "origin" branchName []) ].

(** The Branch Operator on one working copy: open it, query its status,
    then the steps above, stopping at the first failure. *)
Definition branch_sequence (dir branchName : string) (w : W)
  : option Exn * W * list Call :=
  match handle (SimpleGit dir) w with
  | (inl e, w1) => (Some e, w1, [SimpleGit dir])
  | (inr _, w1) =>
      match handle (Git dir Status) w1 with
      | (inl e, w2) => (Some e, w2, [SimpleGit dir; Git dir Status])
      | (inr status, w2) =>
          let '(r, w3, cs) := perform (steps_after_status dir branchName status) w2 in
          (r, w3, SimpleGit dir :: Git dir Status :: cs)
      end
  end.

(** [m] makes the calls [cs] in order and stops at the first rejection. *)
Definition follows (m : M W unit) (cs : list Call) : Prop :=
  forall p,
    match perform cs (services p) with
    | (res, w', made) =>
        outcome (m p) = match res with
                        | None => Returned tt
                        | Some e => Thrown e
                        end
        /\ final (m p) = {| services := w'; exitCode := exitCode p |}
        /\ calls_of (trace (m p)) = made
    end.

(** [m] leaves in the trace the calls it makes of [cs], and nothing else. *)
Definition traces_only (m : M W unit) (cs : list Call) : Prop :=
  forall p, trace (m p) = map Invoke (snd (perform cs (services p))).

(** The request of the Pull Request Operator for one repository. *)
Definition pr_call v (r : string) : Call :=
  AxiosPost (Js.replace BITBUCKET_API_URL "REPO_SLUG" r +++ "pullrequests")
            (BITBUCKET_API_CREATE_PR_REQUEST_DATA v)
            {| auth_username := BITBUCKET_USERNAME env;
               auth_password := BITBUCKET_PASSWORD env |}.

End Reference.

(* ------------------------------------------------------------------ *)
(** ** Facts about the prelude *)

Unset Implicit Arguments.

Lemma includes_In (arr : list string) (x : string) :
  Js.includes arr x = true <-> In x arr.
Proof.
  unfold Js.includes. rewrite existsb_exists. split.
  - intros [y [Hy Heq]]. apply String.eqb_eq in Heq. now subst.
  - intros H. exists x. split; [assumption | apply String.eqb_refl].
Qed.

Lemma includes_not_In (arr : list string) (x : string) :
  Js.includes arr x = false <-> ~ In x arr.
Proof.
  rewrite <- includes_In. destruct (Js.includes arr x); split; congruence.
Qed.

Lemma uniq_fold (l : list string) :
  forall seen, NoDup seen ->
    NoDup (fold_left Js.uniq_step l seen)
    /\ (forall x, In x (fold_left Js.uniq_step l seen) <-> In x seen \/ In x l).
Proof.
  induction l as [|a l IH]; intros seen Hnd; simpl.
  - split; [assumption | intros x; tauto].
  - unfold Js.uniq_step at 2 4.
    destruct (Js.includes seen a) eqn:Hinc.
    + destruct (IH seen Hnd) as [H1 H2]. split; [assumption|].
      intros x. rewrite H2. apply includes_In in Hinc.
      split; [tauto | intros [H | [H | H]]; subst; tauto].
    + apply includes_not_In in Hinc.
      assert (Hnd' : NoDup (seen ++ [a])).
      { apply NoDup_app; [assumption | repeat constructor; simpl; tauto |].
        intros y Hy [Hya | []]. now subst. }
      destruct (IH _ Hnd') as [H1 H2]. split; [assumption|].
      intros x. rewrite H2, in_app_iff. simpl. tauto.
Qed.

Lemma uniq_NoDup (l : list string) : NoDup (Js.uniq l).
Proof. apply (uniq_fold l [] (NoDup_nil _)). Qed.

Lemma uniq_In (l : list string) (x : string) : In x (Js.uniq l) <-> In x l.
Proof.
  unfold Js.uniq. destruct (uniq_fold l [] (NoDup_nil _)) as [_ H].
  rewrite H. simpl. tauto.
Qed.

Lemma append_assoc (a b c : string) : (a +++ b) +++ c = a +++ b +++ c.
Proof. induction a as [|ch a IH]; simpl; [reflexivity | now rewrite IH]. Qed.

Lemma append_length (a b : string) :
  String.length (a +++ b) = String.length a + String.length b.
Proof. induction a as [|ch a IH]; simpl; [reflexivity | now rewrite IH]. Qed.

Lemma append_inv_head (s a b : string) : s +++ a = s +++ b -> a = b.
Proof.
  induction s as [|ch s IH]; simpl; intros H; [assumption|].
  injection H as H. now apply IH.
Qed.

Lemma append_inv_tail (s : string) : forall a b, a +++ s = b +++ s -> a = b.
Proof.
  induction a as [|ch a IH]; intros [|ch' b] H; simpl in H.
  - reflexivity.
  - apply (f_equal String.length) in H. simpl in H.
    rewrite append_length in H. lia.
  - apply (f_equal String.length) in H. simpl in H.
    rewrite append_length in H. lia.
  - injection H as Hc H. subst. f_equal. now apply IH.
Qed.

(* ------------------------------------------------------------------ *)
(** ** Facts about the monad *)

Lemma calls_of_app (t1 t2 : list Event) :
  calls_of (t1 ++ t2) = calls_of t1 ++ calls_of t2.
Proof.
  induction t1 as [|ev t1 IH]; simpl; [reflexivity|].
  destruct ev; simpl; now rewrite IH.
Qed.

Lemma operator_calls_app (t1 t2 : list Event) :
  operator_calls (t1 ++ t2) = operator_calls t1 ++ operator_calls t2.
Proof. unfold operator_calls. now rewrite calls_of_app, filter_app. Qed.

Section Properties.

Variable W : Type.
Variable handle : forall c : Call, W -> (Exn + Resp c) * W.
Variable env : Env.

Lemma call_rejects (c : Call) (p : Process W) (e : Exn) (w' : W) :
  handle c (services p) = (inl e, w') ->
  call handle c p
  = mkRun (Thrown e) {| services := w'; exitCode := exitCode p |} [Invoke c].
Proof. intros H. unfold call. now rewrite H. Qed.

Lemma call_resolves (c : Call) (p : Process W) (x : Resp c) (w' : W) :
  handle c (services p) = (inr x, w') ->
  call handle c p
  = mkRun (Returned x) {| services := w'; exitCode := exitCode p |} [Invoke c].
Proof. intros H. unfold call. now rewrite H. Qed.

Lemma bind_run_returned {A B} (m : M W A) (k : A -> M W B) p a p1 t1 :
  m p = mkRun (Returned a) p1 t1 ->
  bind m k p = mkRun (outcome (k a p1)) (final (k a p1)) (t1 ++ trace (k a p1)).
Proof. intros H. unfold bind. now rewrite H. Qed.

Lemma bind_run_thrown {A B} (m : M W A) (k : A -> M W B) p e p1 t1 :
  m p = mkRun (Thrown e) p1 t1 ->
  bind m k p = mkRun (Thrown e) p1 t1.
Proof. intros H. unfold bind. now rewrite H. Qed.

Lemma run_eta {A} (r : Run W A) : r = mkRun (outcome r) (final r) (trace r).
Proof. now destruct r. Qed.

(** *** The resolver *)

Lemma collect_issue_repos_run (repos : list string) (i : Issue) (p : Process W) :
  collect_issue_repos handle env repos i p
  = match handle (getPRsFromJira env (id i)) (services p) with
    | (inl e, w1) =>
        mkRun (Thrown e) {| services := w1; exitCode := exitCode p |}
              [Invoke (getPRsFromJira env (id i))]
    | (inr d, w1) =>
        match detail d with
        | [] =>
            mkRun (Thrown (property_of_undefined "pullRequests"))
                  {| services := w1; exitCode := exitCode p |}
                  [Invoke (getPRsFromJira env (id i))]
        | entry :: _ =>
            mkRun (Returned (repos ++ Js.uniq (map repositoryName (pullRequests entry))))
                  {| services := w1; exitCode := exitCode p |}
                  [Invoke (getPRsFromJira env (id i))]
        end
    end.
Proof.
  unfold collect_issue_repos, bind, call.
  destruct (handle (getPRsFromJira env (id i)) (services p)) as [[e|d] w1]; simpl.
  - reflexivity.
  - unfold first_pullRequests, Js.at_index.
    destruct (detail d) as [|entry others]; reflexivity.
Qed.

(** The loop of [getReposFromRelease], against what the tracker reports. *)
Lemma resolve_loop (l : list Issue) :
  forall (acc : list string) (p : Process W),
    let r := for_index l acc (collect_issue_repos handle env) p in
    operator_calls (trace r) = []
    /\ match tracker_pull_requests handle env l (services p) with
       | (inr prss, w') =>
           outcome r
           = Returned (acc ++ flat_map (fun prs => Js.uniq (map repositoryName prs)) prss)
           /\ final r = {| services := w'; exitCode := exitCode p |}
       | (inl e, w') =>
           outcome r = Thrown e
           /\ final r = {| services := w'; exitCode := exitCode p |}
       end.
Proof.
  induction l as [|i l IH]; intros acc p; simpl.
  - rewrite app_nil_r. destruct p. auto.
  - unfold bind. rewrite collect_issue_repos_run.
    destruct (handle (getPRsFromJira env (id i)) (services p)) as [[e|d] w1]; simpl.
    + auto.
    + destruct (detail d) as [|entry others]; simpl; [auto|].
      specialize (IH (acc ++ Js.uniq (map repositoryName (pullRequests entry)))
                     {| services := w1; exitCode := exitCode p |}).
      simpl in IH. destruct IH as [IHc IHo].
      split; [exact IHc|].
      destruct (tracker_pull_requests handle env l w1) as [[e|prss] w2];
        destruct IHo as [Ho Hf]; rewrite Ho, Hf; simpl; [auto|].
      now rewrite app_assoc.
Qed.

Lemma repo_names_referenced (prss : list (list PullRequest)) (r : string) :
  In r (repo_names prss) <-> referenced prss r.
Proof.
  unfold repo_names, referenced. rewrite in_flat_map. split.
  - intros [prs [Hprs Hr]]. apply uniq_In, in_map_iff in Hr.
    destruct Hr as [pr [Hname Hpr]]. now exists prs, pr.
  - intros [prs [pr [Hprs [Hpr Hname]]]]. exists prs. split; [assumption|].
    apply uniq_In, in_map_iff. now exists pr.
Qed.

Lemma getReposFromRelease_run (release : Release) (p : Process W) :
  let r := getReposFromRelease handle env (Some release) p in
  operator_calls (trace r) = []
  /\ match tracker_pull_requests handle env (issues release) (services p) with
     | (inr prss, w') =>
         outcome r = Returned (Js.uniq (repo_names prss))
         /\ final r = {| services := w'; exitCode := exitCode p |}
     | (inl e, w') =>
         outcome r = Thrown e
         /\ final r = {| services := w'; exitCode := exitCode p |}
     end.
Proof.
  unfold getReposFromRelease, get_issues. unfold bind at 1. simpl.
  destruct (resolve_loop (issues release) [] p) as [Hc Ho].
  simpl in Hc, Ho. unfold bind.
  destruct (tracker_pull_requests handle env (issues release) (services p))
    as [[e|prss] w']; destruct Ho as [Ho Hf]; rewrite Ho; simpl.
  - auto.
  - rewrite app_nil_r. auto.
Qed.

Lemma getReposFromRelease_undefined (p : Process W) :
  getReposFromRelease handle env None p
  = mkRun (Thrown (property_of_undefined "issues")) p [].
Proof. reflexivity. Qed.

(** *** The search *)

Lemma getJiraCardsFromRelease_resolves v (p : Process W) release w1 :
  handle (SearchJira (jira env) (release_jql v)) (services p) = (inr release, w1) ->
  getJiraCardsFromRelease handle env v p
  = mkRun (Returned (Some release)) {| services := w1; exitCode := exitCode p |}
          [Invoke (SearchJira (jira env) (release_jql v))].
Proof.
  intros H. unfold getJiraCardsFromRelease, try_catch, bind, call.
  rewrite H. reflexivity.
Qed.

Lemma getJiraCardsFromRelease_rejects v (p : Process W) e w1 :
  handle (SearchJira (jira env) (release_jql v)) (services p) = (inl e, w1) ->
  getJiraCardsFromRelease handle env v p
  = mkRun (Returned None) {| services := w1; exitCode := exitCode p |}
          [Invoke (SearchJira (jira env) (release_jql v));
           ConsoleError [Str "Error retrieving Jira cards from the release:";
                         Str (message_of e)]].
Proof.
  intros H. unfold getJiraCardsFromRelease, try_catch, bind, call.
  rewrite H. reflexivity.
Qed.

(** Both operators' entry points stop where the resolution stops. *)
Lemma entry_stops_with_resolution v (p : Process W) jiraRes p1 t1 e
      (loop : list string -> M W unit) :
  getJiraCardsFromRelease handle env v p = mkRun (Returned jiraRes) p1 t1 ->
  outcome (getReposFromRelease handle env jiraRes p1) = Thrown e ->
  let r := (jiraRes' <- getJiraCardsFromRelease handle env v ;;
            releaseRepos <- getReposFromRelease handle env jiraRes' ;;
            loop releaseRepos) p in
  outcome r = Thrown e
  /\ final r = final (getReposFromRelease handle env jiraRes p1)
  /\ trace r = t1 ++ trace (getReposFromRelease handle env jiraRes p1).
Proof.
  intros Hs Hr. simpl. unfold bind. rewrite Hs. simpl. rewrite Hr. simpl. auto.
Qed.

(** Both operators' entry points run their loop on what the resolution
    returns. *)
Lemma entry_runs_loop v (p : Process W) jiraRes p1 t1 repos p2 t2
      (loop : list string -> M W unit) :
  getJiraCardsFromRelease handle env v p = mkRun (Returned jiraRes) p1 t1 ->
  getReposFromRelease handle env jiraRes p1 = mkRun (Returned repos) p2 t2 ->
  (jiraRes' <- getJiraCardsFromRelease handle env v ;;
   releaseRepos <- getReposFromRelease handle env jiraRes' ;;
   loop releaseRepos) p
  = mkRun (outcome (loop repos p2)) (final (loop repos p2))
          (t1 ++ t2 ++ trace (loop repos p2)).
Proof.
  intros Hs Hr. unfold bind. rewrite Hs. simpl. rewrite Hr. simpl. reflexivity.
Qed.

(** C5. The Repository Resolver returns the distinct repository names of
    all pull requests of all issues: when the tracker answers every detail
    request, the resolver returns a list without repetition whose members
    are exactly the repository names referenced by some pull request of
    some issue, and for a release without issues that list is empty. *)
Theorem resolver_returns_distinct_repositories
        (release : Release) (p : Process W) prss w' :
  tracker_pull_requests handle env (issues release) (services p) = (inr prss, w') ->
  exists repos,
    outcome (getReposFromRelease handle env (Some release) p) = Returned repos
    /\ NoDup repos
    /\ (forall r, In r repos <-> referenced prss r)
    /\ (issues release = [] -> repos = []).
Proof.
  intros H. destruct (getReposFromRelease_run release p) as [_ Ho].
  rewrite H in Ho. destruct Ho as [Ho _].
  exists (Js.uniq (repo_names prss)). repeat split.
  - exact Ho.
  - apply uniq_NoDup.
  - intros Hr. now apply repo_names_referenced, uniq_In.
  - intros Hr. now apply uniq_In, repo_names_referenced.
  - intros Hnil. rewrite Hnil in H. simpl in H.
    injection H as <- _. reflexivity.
Qed.

Lemma repo_names_app (a b : list (list PullRequest)) :
  repo_names (a ++ b) = repo_names a ++ repo_names b.
Proof. unfold repo_names. apply flat_map_app. Qed.

Lemma tracker_pull_requests_app (a b : list Issue) :
  forall w,
    tracker_pull_requests handle env (a ++ b) w
    = match tracker_pull_requests handle env a w with
      | (inl e, w') => (inl e, w')
      | (inr pa, w') =>
          match tracker_pull_requests handle env b w' with
          | (inl e, w'') => (inl e, w'')
          | (inr pb, w'') => (inr (pa ++ pb), w'')
          end
      end.
Proof.
  induction a as [|i a IH]; intros w; simpl.
  - destruct (tracker_pull_requests handle env b w) as [[e|pb] w']; reflexivity.
  - destruct (handle (getPRsFromJira env (id i)) w) as [[e|d] w1]; [reflexivity|].
    destruct (detail d) as [|entry others]; [reflexivity|].
    rewrite IH.
    destruct (tracker_pull_requests handle env a w1) as [[e|pa] w2]; [reflexivity|].
    destruct (tracker_pull_requests handle env b w2) as [[e|pb] w3]; reflexivity.
Qed.

(** C8, as the code has it.  An issue whose detail answer has a first
    development-panel entry with zero pull requests does not make the
    resolution fail and contributes nothing: when the tracker answers the
    detail request of issue [i] with an entry that holds no pull request,
    and answers the requests of the issues before and after it, the
    resolver returns the distinct repository names of those other issues'
    pull requests, and none besides. *)
Theorem issue_without_pull_requests_contributes_nothing
        (before : list Issue) (i : Issue) (after : list Issue)
        (p : Process W) prss1 w1 d entry others w2 prss2 w3 :
  tracker_pull_requests handle env before (services p) = (inr prss1, w1) ->
  handle (getPRsFromJira env (id i)) w1 = (inr d, w2) ->
  detail d = entry :: others ->
  pullRequests entry = [] ->
  tracker_pull_requests handle env after w2 = (inr prss2, w3) ->
  let r := getReposFromRelease handle env (Some {| issues := before ++ i :: after |}) p in
  outcome r = Returned (Js.uniq (repo_names (prss1 ++ prss2)))
  /\ (forall name, (exists repos, outcome r = Returned repos /\ In name repos)
                   <-> referenced (prss1 ++ prss2) name).
Proof.
  intros Hb Hi Hd Hprs Ha r.
  assert (Ho : outcome r = Returned (Js.uniq (repo_names (prss1 ++ prss2)))).
  { destruct (getReposFromRelease_run {| issues := before ++ i :: after |} p) as [_ Ho].
    cbn [issues] in Ho. rewrite tracker_pull_requests_app, Hb in Ho.
    cbn [tracker_pull_requests] in Ho. rewrite Hi, Hd, Ha, Hprs in Ho.
    destruct Ho as [Ho _]. subst r. rewrite Ho. rewrite !repo_names_app. reflexivity. }
  split; [exact Ho|].
  intros name. rewrite Ho. split.
  - intros [repos [Heq Hin]]. injection Heq as <-.
    now apply repo_names_referenced, uniq_In.
  - intros Href. eexists. split; [reflexivity|].
    now apply uniq_In, repo_names_referenced.
Qed.

(** *** The Branch Operator *)

Lemma bind_call {B} (c : Call) (k : Resp c -> M W B) (p : Process W) :
  bind (call handle c) k p
  = match handle c (services p) with
    | (inl e, w') =>
        mkRun (Thrown e) {| services := w'; exitCode := exitCode p |} [Invoke c]
    | (inr x, w') =>
        mkRun (outcome (k x {| services := w'; exitCode := exitCode p |}))
              (final (k x {| services := w'; exitCode := exitCode p |}))
              (Invoke c :: trace (k x {| services := w'; exitCode := exitCode p |}))
    end.
Proof.
  unfold bind, call. destruct (handle c (services p)) as [[e|x] w']; reflexivity.
Qed.

Lemma bind_assoc {A B C} (m : M W A) (f : A -> M W B) (g : B -> M W C) p :
  bind (bind m f) g p = bind m (fun a => bind (f a) g) p.
Proof.
  unfold bind. destruct (m p) as [[a|e] p1 t1]; cbn; [|reflexivity].
  destruct (f a p1) as [[b|e] p2 t2]; cbn; [|reflexivity].
  now rewrite app_assoc.
Qed.

Lemma bind_ret {A B} (a : A) (k : A -> M W B) p : bind (ret a) k p = k a p.
Proof. unfold bind, ret. cbn. now destruct (k a p). Qed.

Lemma bind_emit {B} (ev : Event) (k : unit -> M W B) p :
  bind (emit ev) k p = mkRun (outcome (k tt p)) (final (k tt p)) (ev :: trace (k tt p)).
Proof. reflexivity. Qed.

Lemma follows_cons (c : Call) (m : M W unit) (cs : list Call) :
  follows handle m cs -> follows handle (bind (call handle c) (fun _ => m)) (c :: cs).
Proof.
  intros Hm p. rewrite bind_call. cbn [perform].
  destruct (handle c (services p)) as [[e|x] w1]; [cbn; auto|].
  specialize (Hm {| services := w1; exitCode := exitCode p |}). cbn in Hm.
  destruct (perform handle cs w1) as [[res w2] made].
  destruct Hm as [Ho [Hf Hc]]. cbn. rewrite Ho, Hf, Hc. auto.
Qed.

Lemma follows_push (d remote b : string) (options : list string) :
  follows handle (call handle (Git d (Push remote b options))) [Git d (Push remote b options)].
Proof.
  intros p. unfold call. cbn [perform].
  destruct (handle (Git d (Push remote b options)) (services p)) as [[e|x] w1]; cbn.
  - auto.
  - destruct x. auto.
Qed.

Lemma follows_log (args : list LogArg) (m : M W unit) (cs : list Call) :
  follows handle m cs -> follows handle (bind (console_log args) (fun _ => m)) cs.
Proof.
  intros Hm p. unfold console_log. rewrite bind_emit. cbn.
  specialize (Hm p). destruct (perform handle cs (services p)) as [[res w2] made].
  exact Hm.
Qed.

Lemma checkoutBranch_run (r b : string) (p : Process W) :
  let run := checkoutBranch handle env r b p in
  match branch_sequence handle (REPO_BASE_PATH env +++ r) b (services p) with
  | (res, w', cs) =>
      outcome run = match res with
                    | None => Returned tt
                    | Some e => Thrown e
                    end
      /\ final run = {| services := w'; exitCode := exitCode p |}
      /\ calls_of (trace run) = cs
  end.
Proof.
  unfold checkoutBranch, branch_sequence. cbv zeta.
  set (dir := REPO_BASE_PATH env +++ r).
  rewrite bind_call.
  destruct (handle (SimpleGit dir) (services p)) as [[e|x] w1]; [cbn; auto|].
  unfold stashChangesIfNeeded. rewrite bind_assoc, bind_call.
  cbn [services exitCode].
  destruct (handle (Git dir Status) w1) as [[e|status] w2]; [cbn; auto|].
  cbn [outcome final trace calls_of services exitCode].
  assert (Htail : follows handle
            ((if negb (isClean status)
              then console_log [Str "Stashing uncommitted changes..."] ;;
                   call handle (Git dir Stash)
              else ret tt) ;;
             call handle (Git dir Fetch) ;;
             call handle (Git dir (Checkout "dev")) ;;
             call handle (Git dir Pull) ;;
             call handle (Git dir (CheckoutLocalBranch b)) ;;
             call handle (Git dir (Push "origin" b [])))
            (steps_after_status dir b status)).
  { assert (Hrest : follows handle
              (call handle (Git dir Fetch) ;;
               call handle (Git dir (Checkout "dev")) ;;
               call handle (Git dir Pull) ;;
               call handle (Git dir (CheckoutLocalBranch b)) ;;
               call handle (Git dir (Push "origin" b [])))
              [ Git dir Fetch; Git dir (Checkout "dev"); Git dir Pull;
                Git dir (CheckoutLocalBranch b); Git dir (Push "origin" b []) ]).
    { repeat apply follows_cons. apply follows_push. }
    unfold steps_after_status. destruct (isClean status); cbn [negb app].
    - intros q. rewrite bind_ret. apply Hrest.
    - intros q. rewrite bind_assoc.
      apply (follows_log _ _ _ (follows_cons (Git dir Stash) _ _ Hrest)). }
  specialize (Htail {| services := w2; exitCode := exitCode p |}).
  cbn [services exitCode] in Htail.
  destruct (perform handle (steps_after_status dir b status) w2) as [[res w3] made].
  destruct Htail as [Ho [Hf Hc]].
  repeat split; [exact Ho | exact Hf | do 2 f_equal; exact Hc].
Qed.

Lemma perform_made_in_steps (steps : list Call) :
  forall w c, In c (snd (perform handle steps w)) -> In c steps.
Proof.
  induction steps as [|s steps IH]; intros w c; cbn.
  - tauto.
  - destruct (handle s w) as [[e|x] w1]; cbn.
    + tauto.
    + specialize (IH w1 c). destruct (perform handle steps w1) as [[res w2] made].
      cbn in *. tauto.
Qed.

Lemma branch_sequence_calls (dir b : string) (w : W) :
  let cs := snd (branch_sequence handle dir b w) in
  In (SimpleGit dir) cs
  /\ forall c, In c cs -> In c (branch_operator_calls dir b).
Proof.
  unfold branch_sequence.
  destruct (handle (SimpleGit dir) w) as [[e|x] w1]; cbn.
  - split; [tauto | intros c [<- | []]; cbn; tauto].
  - destruct (handle (Git dir Status) w1) as [[e|status] w2]; cbn.
    + split; [tauto | intros c [<- | [<- | []]]; cbn; tauto].
    + pose proof (perform_made_in_steps (steps_after_status dir b status) w2) as Hin.
      destruct (perform handle (steps_after_status dir b status) w2) as [[res w3] made].
      cbn in *. split; [tauto|].
      intros c [<- | [<- | Hc]]; [tauto | tauto |].
      apply Hin in Hc. unfold steps_after_status in Hc.
      destruct (isClean status); cbn in Hc; tauto.
Qed.

Lemma checkoutBranch_calls (r b : string) (p : Process W) :
  let cs := calls_of (trace (checkoutBranch handle env r b p)) in
  In (SimpleGit (REPO_BASE_PATH env +++ r)) cs
  /\ forall c, In c cs -> In c (branch_operator_calls (REPO_BASE_PATH env +++ r) b).
Proof.
  pose proof (checkoutBranch_run r b p) as Hrun.
  pose proof (branch_sequence_calls (REPO_BASE_PATH env +++ r) b (services p)) as Hcs.
  cbv zeta in *.
  destruct (branch_sequence handle (REPO_BASE_PATH env +++ r) b (services p))
    as [[res w'] cs].
  destruct Hrun as [_ [_ Hc]]. rewrite Hc. exact Hcs.
Qed.

(** *** The two loops *)

Lemma for_of_cons {X} (body : X -> M W unit) (x : X) (rest : list X) p :
  outcome (body x p) = Returned tt ->
  for_of (x :: rest) body p
  = mkRun (outcome (for_of rest body (final (body x p))))
          (final (for_of rest body (final (body x p))))
          (trace (body x p) ++ trace (for_of rest body (final (body x p)))).
Proof. intros H. cbn. unfold bind. now rewrite H. Qed.

Section Loops.

Variable X : Type.
Variable body : X -> M W unit.
Hypothesis body_returns : forall x q, outcome (body x q) = Returned tt.

Lemma for_of_returns (l : list X) : forall p, outcome (for_of l body p) = Returned tt.
Proof.
  induction l as [|x l IH]; intros p; [reflexivity|].
  rewrite for_of_cons by apply body_returns. cbn. apply IH.
Qed.

Lemma for_of_app (l1 l2 : list X) :
  forall p,
    for_of (l1 ++ l2) body p
    = mkRun (outcome (for_of l2 body (final (for_of l1 body p))))
            (final (for_of l2 body (final (for_of l1 body p))))
            (trace (for_of l1 body p) ++ trace (for_of l2 body (final (for_of l1 body p)))).
Proof.
  induction l1 as [|x l1 IH]; intros p.
  - cbn. now destruct (for_of l2 body p).
  - rewrite <- app_comm_cons. rewrite !for_of_cons by apply body_returns.
    rewrite IH. cbn. now rewrite app_assoc.
Qed.

Lemma for_of_trace_sound (P : X -> Event -> Prop) :
  (forall x q ev, In ev (trace (body x q)) -> P x ev) ->
  forall l p ev, In ev (trace (for_of l body p)) -> exists x, In x l /\ P x ev.
Proof.
  intros HP. induction l as [|x l IH]; intros p ev.
  - cbn. tauto.
  - rewrite for_of_cons by apply body_returns. cbn. rewrite in_app_iff.
    intros [H | H].
    + exists x. split; [now left | now apply (HP x p)].
    + apply IH in H. destruct H as [y [Hy HPy]]. exists y. split; [now right | assumption].
Qed.

Lemma for_of_trace_complete (A : X -> Prop) (E : X -> Event) :
  (forall x q, A x -> In (E x) (trace (body x q))) ->
  forall l p x, In x l -> A x -> In (E x) (trace (for_of l body p)).
Proof.
  intros HE. induction l as [|y l IH]; intros p x Hin HA.
  - destruct Hin.
  - rewrite for_of_cons by apply body_returns. cbn. rewrite in_app_iff.
    destruct Hin as [-> | Hin].
    + left. now apply HE.
    + right. now apply IH.
Qed.

End Loops.

Lemma in_calls_of (t : list Event) (c : Call) : In c (calls_of t) <-> In (Invoke c) t.
Proof.
  induction t as [|ev t IH]; cbn; [tauto|].
  destruct ev as [c0| | |]; cbn; rewrite IH.
  - split; (intros [H | H]; [left | now right]).
    + now subst.
    + now injection H.
  - split; [tauto | intros [H | H]; [discriminate | assumption]].
  - split; [tauto | intros [H | H]; [discriminate | assumption]].
  - split; [tauto | intros [H | H]; [discriminate | assumption]].
Qed.

Lemma branch_repository_accepted v (r : string) (p : Process W) :
  Js.includes WHITELISTED_REPOS r = true ->
  branch_repository handle env v r p
  = mkRun (Returned tt)
          (final (checkoutBranch handle env r (releaseBranchName v) p))
          (ConsoleLog [branch_start_notice v r]
             :: trace (checkoutBranch handle env r (releaseBranchName v) p)
             ++ [branch_result_notice r
                   (outcome (checkoutBranch handle env r (releaseBranchName v) p));
                 ConsoleLog []]).
Proof.
  intros H. unfold branch_repository. rewrite H.
  unfold bind, try_catch, console_log, console_error, emit.
  cbn [outcome final trace].
  destruct (checkoutBranch handle env r (releaseBranchName v) p) as [[[]|e] p1 t1];
    cbn [outcome final trace app branch_result_notice];
    now rewrite <- ?app_assoc.
Qed.

Lemma branch_repository_skipped v (r : string) (p : Process W) :
  Js.includes WHITELISTED_REPOS r = false ->
  branch_repository handle env v r p
  = mkRun (Returned tt) p [ConsoleLog [branch_skip_notice r]; ConsoleLog []].
Proof. intros H. unfold branch_repository. rewrite H. reflexivity. Qed.

Lemma branch_repository_returns v (r : string) (p : Process W) :
  outcome (branch_repository handle env v r p) = Returned tt.
Proof.
  destruct (Js.includes WHITELISTED_REPOS r) eqn:H.
  - now rewrite branch_repository_accepted.
  - now rewrite branch_repository_skipped.
Qed.

Lemma createBitbucketPr_trace v (r : string) (p : Process W) :
  trace (createBitbucketPr handle env v r p) = [Invoke (pr_call env v r)].
Proof.
  unfold createBitbucketPr, call, pr_call. cbv zeta.
  match goal with |- context [handle ?c ?w] => destruct (handle c w) end.
  reflexivity.
Qed.

Lemma pr_repository_accepted v (r : string) (p : Process W) :
  Js.includes WHITELISTED_REPOS r = true ->
  pr_repository handle env v r p
  = mkRun (Returned tt)
          (final (createBitbucketPr handle env v r p))
          [ ConsoleLog [pr_start_notice r];
            Invoke (pr_call env v r);
            pr_result_notice r (outcome (createBitbucketPr handle env v r p));
            ConsoleLog [] ].
Proof.
  intros H. unfold pr_repository. rewrite H.
  pose proof (createBitbucketPr_trace v r p) as Ht.
  unfold bind, try_catch, console_log, console_error, emit.
  cbn [outcome final trace].
  destruct (createBitbucketPr handle env v r p) as [[[]|e] p1 t1];
    cbn [outcome final trace app pr_result_notice] in *; now rewrite Ht.
Qed.

Lemma pr_repository_skipped v (r : string) (p : Process W) :
  Js.includes WHITELISTED_REPOS r = false ->
  pr_repository handle env v r p
  = mkRun (Returned tt) p [ConsoleLog [pr_skip_notice r]; ConsoleLog []].
Proof. intros H. unfold pr_repository. rewrite H. reflexivity. Qed.

Lemma pr_repository_returns v (r : string) (p : Process W) :
  outcome (pr_repository handle env v r p) = Returned tt.
Proof.
  destruct (Js.includes WHITELISTED_REPOS r) eqn:H.
  - now rewrite pr_repository_accepted.
  - now rewrite pr_repository_skipped.
Qed.

Lemma whitelisted_url (r : string) :
  In r WHITELISTED_REPOS ->
  Js.replace BITBUCKET_API_URL "REPO_SLUG" r +++ "pullrequests" = pullrequests_url r.
Proof.
  intros H. cbn in H.
  repeat (destruct H as [<- | H]; [vm_compute; reflexivity|]).
  destruct H.
Qed.

Lemma branch_targets_in (cs : list Call) (d : string) :
  In d (branch_targets cs)
  <-> exists c, In c cs /\ (c = SimpleGit d \/ exists op, c = Git d op).
Proof.
  induction cs as [|c cs IH]; cbn.
  - split; [tauto | intros [c [[] _]]].
  - destruct c; cbn; rewrite ?IH; split.
    all: try (intros [c [Hc Hd]]; exists c; tauto).
    all: try (intros [c [[<- | Hc] Hd]];
              [destruct Hd as [Hd | [op Hd]]; discriminate | exists c; tauto]).
    + intros [<- | [c [Hc Hd]]]; [eexists; split; [left; reflexivity | tauto]|].
      exists c; tauto.
    + intros [c [[<- | Hc] Hd]].
      * destruct Hd as [Hd | [op Hd]]; [injection Hd as ->; tauto | discriminate].
      * right. exists c; tauto.
    + intros [<- | [c [Hc Hd]]].
      * eexists; split; [left; reflexivity | right; eexists; reflexivity].
      * exists c; tauto.
    + intros [c [[<- | Hc] Hd]].
      * destruct Hd as [Hd | [op' Hd]]; [discriminate | injection Hd as -> _; tauto].
      * right. exists c; tauto.
Qed.

Lemma pr_targets_in (cs : list Call) (u : string) :
  In u (pr_targets cs) <-> exists data auth, In (AxiosPost u data auth) cs.
Proof.
  induction cs as [|c cs IH]; cbn.
  - split; [tauto | intros [data [auth []]]].
  - destruct c; cbn; rewrite ?IH; split.
    all: try (intros [data0 [auth0 H]]; exists data0, auth0; tauto).
    all: try (intros [data0 [auth0 [H | H]]]; [discriminate | exists data0, auth0; tauto]).
    + intros [<- | [data0 [auth0 H]]]; [do 2 eexists; left; reflexivity|].
      exists data0, auth0; tauto.
    + intros [data0 [auth0 [H | H]]]; [injection H as -> _ _; tauto|].
      right. exists data0, auth0; tauto.
Qed.

Lemma created_branches_in (cs : list Call) (b : string) :
  In b (created_branches cs)
  -> exists c, In c cs
               /\ ((exists d, c = Git d (CheckoutLocalBranch b))
                   \/ (exists d remote options, c = Git d (Push remote b options))).
Proof.
  induction cs as [|c cs IH]; cbn; [tauto|].
  destruct c as [| | |d op|]; try (intros H; destruct (IH H) as [c [Hc Hb]]; exists c; tauto).
  destruct op; try (intros H; destruct (IH H) as [c [Hc Hb]]; exists c; tauto).
  - intros [<- | H]; [eexists; split; [left; reflexivity | left; eexists; reflexivity]|].
    destruct (IH H) as [c [Hc Hb]]; exists c; tauto.
  - intros [<- | H];
      [eexists; split; [left; reflexivity | right; do 3 eexists; reflexivity]|].
    destruct (IH H) as [c [Hc Hb]]; exists c; tauto.
Qed.

Lemma operator_calls_nil (t : list Event) (c : Call) :
  operator_calls t = [] -> In (Invoke c) t -> is_operator_call c = false.
Proof.
  intros Hnil Hin. apply in_calls_of in Hin.
  destruct (is_operator_call c) eqn:Hc; [|reflexivity].
  assert (Hf : In c (operator_calls t)) by (apply filter_In; tauto).
  rewrite Hnil in Hf. destruct Hf.
Qed.

(** *** The entry points of the two operators *)

(** After a successful search and resolution, an entry point is its loop
    over the distinct repository names the tracker reported. *)
Lemma entry_after_resolution v (p : Process W) release w1 prss w2
      (loop : list string -> M W unit) :
  handle (SearchJira (jira env) (release_jql v)) (services p) = (inr release, w1) ->
  tracker_pull_requests handle env (issues release) w1 = (inr prss, w2) ->
  exists t,
    operator_calls t = []
    /\ (jiraRes <- getJiraCardsFromRelease handle env v ;;
        releaseRepos <- getReposFromRelease handle env jiraRes ;;
        loop releaseRepos) p
       = let r := loop (Js.uniq (repo_names prss))
                       {| services := w2; exitCode := exitCode p |} in
         mkRun (outcome r) (final r) (t ++ trace r).
Proof.
  intros Hs Ht.
  pose proof (getJiraCardsFromRelease_resolves v p release w1 Hs) as Hcards.
  destruct (getReposFromRelease_run release {| services := w1; exitCode := exitCode p |})
    as [Hops Hres].
  cbn [services exitCode] in Hres. rewrite Ht in Hres. destruct Hres as [Ho Hf].
  exists (Invoke (SearchJira (jira env) (release_jql v))
            :: trace (getReposFromRelease handle env (Some release)
                        {| services := w1; exitCode := exitCode p |})).
  split.
  - rewrite <- Hops. reflexivity.
  - rewrite (entry_runs_loop v p (Some release) _ _ (Js.uniq (repo_names prss))
               {| services := w2; exitCode := exitCode p |}
               (trace (getReposFromRelease handle env (Some release)
                         {| services := w1; exitCode := exitCode p |}))
               loop Hcards).
    + reflexivity.
    + rewrite <- Ho, <- Hf. apply run_eta.
Qed.

Lemma branch_loop_calls v (repos : list string) (p : Process W) (c : Call) :
  In (Invoke c) (trace (for_of repos (branch_repository handle env v) p)) ->
  exists r, In r repos /\ In r WHITELISTED_REPOS
            /\ In c (branch_operator_calls (REPO_BASE_PATH env +++ r) (releaseBranchName v)).
Proof.
  intros H.
  apply (for_of_trace_sound _ (branch_repository handle env v)
           (branch_repository_returns v)
           (fun r ev => forall c, ev = Invoke c ->
              In r WHITELISTED_REPOS
              /\ In c (branch_operator_calls (REPO_BASE_PATH env +++ r) (releaseBranchName v))))
    in H.
  - destruct H as [r [Hr HP]]. exists r. destruct (HP c eq_refl). auto.
  - clear. intros r q ev Hev c0 ->.
    destruct (Js.includes WHITELISTED_REPOS r) eqn:Hw.
    + rewrite branch_repository_accepted in Hev by assumption. cbn [trace] in Hev.
      destruct Hev as [Hev | Hev]; [discriminate|].
      apply in_app_iff in Hev. destruct Hev as [Hev | Hev].
      * split; [now apply includes_In|].
        apply (proj2 (checkoutBranch_calls r (releaseBranchName v) q)).
        now apply in_calls_of.
      * destruct Hev as [Hev | [Hev | []]]; [|discriminate].
        destruct (outcome (checkoutBranch handle env r (releaseBranchName v) q));
          discriminate.
    + rewrite branch_repository_skipped in Hev by assumption.
      destruct Hev as [Hev | [Hev | []]]; discriminate.
Qed.

Lemma branch_loop_opens v (repos : list string) (p : Process W) (r : string) :
  In r repos -> In r WHITELISTED_REPOS ->
  In (Invoke (SimpleGit (REPO_BASE_PATH env +++ r)))
     (trace (for_of repos (branch_repository handle env v) p)).
Proof.
  intros Hr Hw.
  apply (for_of_trace_complete _ (branch_repository handle env v)
           (branch_repository_returns v)
           (fun r => In r WHITELISTED_REPOS)
           (fun r => Invoke (SimpleGit (REPO_BASE_PATH env +++ r)))); try assumption.
  clear. intros r q Hw. rewrite branch_repository_accepted by now apply includes_In.
  cbn [trace]. right. apply in_app_iff. left.
  apply in_calls_of. apply (proj1 (checkoutBranch_calls r (releaseBranchName v) q)).
Qed.

Lemma branch_loop_skips v (repos : list string) (p : Process W) (r : string) :
  In r repos -> ~ In r WHITELISTED_REPOS ->
  In (ConsoleLog [branch_skip_notice r])
     (trace (for_of repos (branch_repository handle env v) p)).
Proof.
  intros Hr Hw.
  apply (for_of_trace_complete _ (branch_repository handle env v)
           (branch_repository_returns v)
           (fun r => ~ In r WHITELISTED_REPOS)
           (fun r => ConsoleLog [branch_skip_notice r])); try assumption.
  clear. intros r q Hw. rewrite branch_repository_skipped by now apply includes_not_In.
  now left.
Qed.

Lemma pr_loop_calls v (repos : list string) (p : Process W) (c : Call) :
  In (Invoke c) (trace (for_of repos (pr_repository handle env v) p)) ->
  exists r, In r repos /\ In r WHITELISTED_REPOS /\ c = pr_call env v r.
Proof.
  intros H.
  apply (for_of_trace_sound _ (pr_repository handle env v)
           (pr_repository_returns v)
           (fun r ev => forall c, ev = Invoke c ->
              In r WHITELISTED_REPOS /\ c = pr_call env v r))
    in H.
  - destruct H as [r [Hr HP]]. exists r. destruct (HP c eq_refl). auto.
  - clear. intros r q ev Hev c0 ->.
    destruct (Js.includes WHITELISTED_REPOS r) eqn:Hw.
    + rewrite pr_repository_accepted in Hev by assumption. cbn [trace] in Hev.
      destruct Hev as [Hev | [Hev | [Hev | [Hev | []]]]]; try discriminate.
      * injection Hev as <-. split; [now apply includes_In | reflexivity].
      * destruct (outcome (createBitbucketPr handle env v r q)); discriminate.
    + rewrite pr_repository_skipped in Hev by assumption.
      destruct Hev as [Hev | [Hev | []]]; discriminate.
Qed.

Lemma pr_loop_posts v (repos : list string) (p : Process W) (r : string) :
  In r repos -> In r WHITELISTED_REPOS ->
  In (Invoke (pr_call env v r)) (trace (for_of repos (pr_repository handle env v) p)).
Proof.
  intros Hr Hw.
  apply (for_of_trace_complete _ (pr_repository handle env v)
           (pr_repository_returns v)
           (fun r => In r WHITELISTED_REPOS)
           (fun r => Invoke (pr_call env v r))); try assumption.
  clear. intros r q Hw. rewrite pr_repository_accepted by now apply includes_In.
  cbn [trace]. right. now left.
Qed.

Lemma pr_loop_skips v (repos : list string) (p : Process W) (r : string) :
  In r repos -> ~ In r WHITELISTED_REPOS ->
  In (ConsoleLog [pr_skip_notice r])
     (trace (for_of repos (pr_repository handle env v) p)).
Proof.
  intros Hr Hw.
  apply (for_of_trace_complete _ (pr_repository handle env v)
           (pr_repository_returns v)
           (fun r => ~ In r WHITELISTED_REPOS)
           (fun r => ConsoleLog [pr_skip_notice r])); try assumption.
  clear. intros r q Hw. rewrite pr_repository_skipped by now apply includes_not_In.
  now left.
Qed.

Lemma createReleaseBranches_resolved v (p : Process W) release w1 prss w2 :
  handle (SearchJira (jira env) (release_jql v)) (services p) = (inr release, w1) ->
  tracker_pull_requests handle env (issues release) w1 = (inr prss, w2) ->
  exists t,
    operator_calls t = []
    /\ createReleaseBranches handle env v p
       = let r := for_of (Js.uniq (repo_names prss)) (branch_repository handle env v)
                         {| services := w2; exitCode := exitCode p |} in
         mkRun (outcome r) (final r) (t ++ trace r).
Proof.
  exact (entry_after_resolution v p release w1 prss w2
           (fun repos => for_of repos (branch_repository handle env v))).
Qed.

Lemma createReleasePRs_resolved v (p : Process W) release w1 prss w2 :
  handle (SearchJira (jira env) (release_jql v)) (services p) = (inr release, w1) ->
  tracker_pull_requests handle env (issues release) w1 = (inr prss, w2) ->
  exists t,
    operator_calls t = []
    /\ createReleasePRs handle env v p
       = let r := for_of (Js.uniq (repo_names prss)) (pr_repository handle env v)
                         {| services := w2; exitCode := exitCode p |} in
         mkRun (outcome r) (final r) (t ++ trace r).
Proof.
  exact (entry_after_resolution v p release w1 prss w2
           (fun repos => for_of repos (pr_repository handle env v))).
Qed.

Lemma operator_event_after_reads (t tl : list Event) (c : Call) :
  operator_calls t = [] -> is_operator_call c = true ->
  In (Invoke c) (t ++ tl) <-> In (Invoke c) tl.
Proof.
  intros Hnil Hc. rewrite in_app_iff. split; [|tauto].
  intros [H | H]; [|assumption].
  rewrite (operator_calls_nil t c Hnil H) in Hc. discriminate.
Qed.

Lemma branch_operator_calls_dir (dir b : string) (c : Call) (d : string) :
  In c (branch_operator_calls dir b) ->
  c = SimpleGit d \/ (exists op, c = Git d op) ->
  d = dir.
Proof.
  intros Hin [-> | [op ->]]; cbn in Hin;
    repeat (destruct Hin as [Hin | Hin]; [congruence|]); destruct Hin.
Qed.

Lemma branch_operator_calls_no_post (dir b : string) (u : string) data auth :
  ~ In (AxiosPost u data auth) (branch_operator_calls dir b).
Proof.
  intros Hin. cbn in Hin.
  repeat (destruct Hin as [Hin | Hin]; [discriminate|]). destruct Hin.
Qed.

Lemma pullrequests_url_inj (r r' : string) :
  pullrequests_url r = pullrequests_url r' -> r = r'.
Proof.
  unfold pullrequests_url. intros H.
  apply append_inv_head in H. now apply append_inv_tail in H.
Qed.

Lemma resolved_referenced (prss : list (list PullRequest)) (r : string) :
  In r (Js.uniq (repo_names prss)) <-> referenced prss r.
Proof. now rewrite uniq_In, repo_names_referenced. Qed.

(** C1. The repositories the operators act on are exactly the repositories
    referenced by the release's pull requests that are on the whitelist.
    When the search and every detail request are answered: the working
    copies the Branch Operator touches are exactly those of the referenced,
    whitelisted repositories; the endpoints the Pull Request Operator posts
    to are exactly those of the referenced, whitelisted repositories; each
    entry point uses its own operator only; and a referenced repository
    [r] that is not on the whitelist gets the console line
    ["[!] r should not be deployed by Open Platform, skip creating release
    branch"] (["... release PR"] from the release_pr action) and no call of
    either operator. *)
Theorem operators_act_on_whitelisted_release_repositories
        v (p : Process W) release w1 prss w2 :
  handle (SearchJira (jira env) (release_jql v)) (services p) = (inr release, w1) ->
  tracker_pull_requests handle env (issues release) w1 = (inr prss, w2) ->
  let tb := trace (createReleaseBranches handle env v p) in
  let tp := trace (createReleasePRs handle env v p) in
  (forall d, In d (branch_targets (calls_of tb))
             <-> exists r, d = REPO_BASE_PATH env +++ r
                           /\ referenced prss r /\ In r WHITELISTED_REPOS)
  /\ (forall u, In u (pr_targets (calls_of tp))
                <-> exists r, u = pullrequests_url r
                              /\ referenced prss r /\ In r WHITELISTED_REPOS)
  /\ pr_targets (calls_of tb) = []
  /\ branch_targets (calls_of tp) = []
  /\ (forall r, referenced prss r -> ~ In r WHITELISTED_REPOS ->
        In (ConsoleLog [Str ("[!] " +++ r +++ " should not be deployed by Open Platform, skip creating release branch")]) tb
        /\ In (ConsoleLog [Str ("[!] " +++ r +++ " should not be deployed by Open Platform, skip creating release PR")]) tp
        /\ ~ In (REPO_BASE_PATH env +++ r) (branch_targets (calls_of tb))
        /\ ~ In (pullrequests_url r) (pr_targets (calls_of tp))).
Proof.
  intros Hs Ht tb tp.
  destruct (createReleaseBranches_resolved v p release w1 prss w2 Hs Ht)
    as [t1 [Hops1 Hb]].
  destruct (createReleasePRs_resolved v p release w1 prss w2 Hs Ht)
    as [t2 [Hops2 Hp]].
  cbv zeta in Hb, Hp.
  set (p2 := {| services := w2; exitCode := exitCode p |}) in *.
  set (repos := Js.uniq (repo_names prss)) in *.
  assert (Htb : tb = t1 ++ trace (for_of repos (branch_repository handle env v) p2))
    by (subst tb; now rewrite Hb).
  assert (Htp : tp = t2 ++ trace (for_of repos (pr_repository handle env v) p2))
    by (subst tp; now rewrite Hp).
  clearbody tb tp. clear Hb Hp.
  assert (Hbranch : forall d, In d (branch_targets (calls_of tb))
             <-> exists r, d = REPO_BASE_PATH env +++ r
                           /\ referenced prss r /\ In r WHITELISTED_REPOS).
  { intros d. rewrite branch_targets_in. split.
    - intros [c [Hc Hd]]. apply in_calls_of in Hc. rewrite Htb in Hc.
      apply operator_event_after_reads in Hc;
        [|assumption | destruct Hd as [-> | [op ->]]; reflexivity].
      apply branch_loop_calls in Hc. destruct Hc as [r [Hr [Hw Hin]]].
      exists r. split; [now apply (branch_operator_calls_dir _ (releaseBranchName v) c)|].
      split; [now apply resolved_referenced | assumption].
    - intros [r [-> [Href Hw]]]. exists (SimpleGit (REPO_BASE_PATH env +++ r)).
      split; [|now left]. apply in_calls_of. rewrite Htb. apply in_app_iff. right.
      apply branch_loop_opens; [now apply resolved_referenced | assumption]. }
  assert (Hpr : forall u, In u (pr_targets (calls_of tp))
             <-> exists r, u = pullrequests_url r
                           /\ referenced prss r /\ In r WHITELISTED_REPOS).
  { intros u. rewrite pr_targets_in. split.
    - intros [data [auth Hc]]. apply in_calls_of in Hc. rewrite Htp in Hc.
      apply operator_event_after_reads in Hc; [|assumption | reflexivity].
      apply pr_loop_calls in Hc. destruct Hc as [r [Hr [Hw Hc]]].
      exists r. unfold pr_call in Hc. injection Hc as -> _ _.
      split; [now apply whitelisted_url|].
      split; [now apply resolved_referenced | assumption].
    - intros [r [-> [Href Hw]]].
      exists (BITBUCKET_API_CREATE_PR_REQUEST_DATA v),
        {| auth_username := BITBUCKET_USERNAME env;
           auth_password := BITBUCKET_PASSWORD env |}.
      apply in_calls_of. rewrite Htp. apply in_app_iff. right.
      rewrite <- (whitelisted_url r Hw).
      apply (pr_loop_posts v repos p2 r); [now apply resolved_referenced | assumption]. }
  split; [exact Hbranch|]. split; [exact Hpr|].
  split; [|split].
  - destruct (pr_targets (calls_of tb)) as [|u us] eqn:Hu; [reflexivity|].
    assert (Hin : In u (pr_targets (calls_of tb))) by (rewrite Hu; now left).
    apply pr_targets_in in Hin. destruct Hin as [data [auth Hc]].
    apply in_calls_of in Hc. rewrite Htb in Hc.
    apply operator_event_after_reads in Hc; [|assumption | reflexivity].
    apply branch_loop_calls in Hc. destruct Hc as [r [_ [_ Hin]]].
    now apply branch_operator_calls_no_post in Hin.
  - destruct (branch_targets (calls_of tp)) as [|d ds] eqn:Hd; [reflexivity|].
    assert (Hin : In d (branch_targets (calls_of tp))) by (rewrite Hd; now left).
    apply branch_targets_in in Hin. destruct Hin as [c [Hc Hcd]].
    apply in_calls_of in Hc. rewrite Htp in Hc.
    apply operator_event_after_reads in Hc;
      [|assumption | destruct Hcd as [-> | [op ->]]; reflexivity].
    apply pr_loop_calls in Hc. destruct Hc as [r [_ [_ Hc]]].
    unfold pr_call in Hc. destruct Hcd as [-> | [op ->]]; discriminate.
  - intros r Href Hnw. repeat split.
    + rewrite Htb. apply in_app_iff. right.
      apply (branch_loop_skips v repos p2 r); [now apply resolved_referenced | assumption].
    + rewrite Htp. apply in_app_iff. right.
      apply (pr_loop_skips v repos p2 r); [now apply resolved_referenced | assumption].
    + intros Hin. apply Hbranch in Hin. destruct Hin as [r' [Heq [_ Hw]]].
      apply append_inv_head in Heq. now subst.
    + intros Hin. apply Hpr in Hin. destruct Hin as [r' [Heq [_ Hw]]].
      apply pullrequests_url_inj in Heq. now subst.
Qed.

Lemma getJiraCardsFromRelease_reads v (p : Process W) :
  operator_calls (trace (getJiraCardsFromRelease handle env v p)) = [].
Proof.
  destruct (handle (SearchJira (jira env) (release_jql v)) (services p))
    as [[e|release] w1] eqn:H.
  - now rewrite (getJiraCardsFromRelease_rejects v p e w1 H).
  - now rewrite (getJiraCardsFromRelease_resolves v p release w1 H).
Qed.

Lemma getReposFromRelease_reads (jiraRes : option Release) (p : Process W) :
  operator_calls (trace (getReposFromRelease handle env jiraRes p)) = [].
Proof.
  destruct jiraRes as [release|].
  - apply (getReposFromRelease_run release p).
  - reflexivity.
Qed.

(** C3. A failing detail request fails the whole resolution, and then
    neither operator acts.  When the search is answered, the detail
    requests of the issues before [i] are answered and the request for [i]
    is rejected with [e]: the resolver throws [e] instead of returning any
    list, both operators' entry points end with [e], and neither makes a
    single git or hosting-provider call. *)
Theorem detail_failure_fails_resolution
        v (p : Process W) release w1 before i after prss wa e w2 :
  handle (SearchJira (jira env) (release_jql v)) (services p) = (inr release, w1) ->
  issues release = before ++ i :: after ->
  tracker_pull_requests handle env before w1 = (inr prss, wa) ->
  handle (getPRsFromJira env (id i)) wa = (inl e, w2) ->
  outcome (getReposFromRelease handle env (Some release)
             {| services := w1; exitCode := exitCode p |}) = Thrown e
  /\ outcome (createReleaseBranches handle env v p) = Thrown e
  /\ operator_calls (trace (createReleaseBranches handle env v p)) = []
  /\ outcome (createReleasePRs handle env v p) = Thrown e
  /\ operator_calls (trace (createReleasePRs handle env v p)) = [].
Proof.
  intros Hs Hsplit Hb Hi.
  pose proof (getJiraCardsFromRelease_resolves v p release w1 Hs) as Hcards.
  assert (Ho : outcome (getReposFromRelease handle env (Some release)
                          {| services := w1; exitCode := exitCode p |}) = Thrown e).
  { destruct (getReposFromRelease_run release {| services := w1; exitCode := exitCode p |})
      as [_ Hres].
    cbn [services] in Hres.
    rewrite Hsplit, tracker_pull_requests_app, Hb in Hres.
    cbn [tracker_pull_requests] in Hres. rewrite Hi in Hres. tauto. }
  split; [exact Ho|].
  assert (Hentry : forall loop : list string -> M W unit,
             let r := (jiraRes <- getJiraCardsFromRelease handle env v ;;
                       releaseRepos <- getReposFromRelease handle env jiraRes ;;
                       loop releaseRepos) p in
             outcome r = Thrown e /\ operator_calls (trace r) = []).
  { intros loop.
    destruct (entry_stops_with_resolution v p (Some release) _ _ e loop Hcards Ho)
      as [Hout [_ Htr]].
    split; [exact Hout|]. rewrite Htr, operator_calls_app, getReposFromRelease_reads.
    reflexivity. }
  destruct (Hentry (fun repos => for_of repos (branch_repository handle env v))) as [H1 H2].
  destruct (Hentry (fun repos => for_of repos (pr_repository handle env v))) as [H3 H4].
  auto.
Qed.

(** The run of either entry point around one accepted repository, in
    terms of the notices of the script. *)
Lemma batch_goes_on_around_each_repository
        v (p : Process W) release w1 prss w2 before r after :
  handle (SearchJira (jira env) (release_jql v)) (services p) = (inr release, w1) ->
  tracker_pull_requests handle env (issues release) w1 = (inr prss, w2) ->
  Js.uniq (repo_names prss) = before ++ r :: after ->
  In r WHITELISTED_REPOS ->
  let p2 := {| services := w2; exitCode := exitCode p |} in
  (let body := branch_repository handle env v in
   let op := checkoutBranch handle env r (releaseBranchName v)
               (final (for_of before body p2)) in
   outcome (createReleaseBranches handle env v p) = Returned tt
   /\ (exists reads,
         operator_calls reads = []
         /\ trace (createReleaseBranches handle env v p)
            = reads ++ trace (for_of before body p2)
                ++ [ConsoleLog [branch_start_notice v r]] ++ trace op
                ++ [branch_result_notice r (outcome op); ConsoleLog []]
                ++ trace (for_of after body (final op)))
   /\ (forall e, outcome op = Thrown e ->
         In (ConsoleError [branch_error_notice r; Err e])
            (trace (createReleaseBranches handle env v p))))
  /\
  (let body := pr_repository handle env v in
   let op := createBitbucketPr handle env v r (final (for_of before body p2)) in
   outcome (createReleasePRs handle env v p) = Returned tt
   /\ (exists reads,
         operator_calls reads = []
         /\ trace (createReleasePRs handle env v p)
            = reads ++ trace (for_of before body p2)
                ++ [ConsoleLog [pr_start_notice r]] ++ trace op
                ++ [pr_result_notice r (outcome op); ConsoleLog []]
                ++ trace (for_of after body (final op)))
   /\ (forall e, outcome op = Thrown e ->
         In (ConsoleError [pr_error_notice r; Err e])
            (trace (createReleasePRs handle env v p)))).
Proof.
  intros Hs Ht Hsplit Hw p2. apply includes_In in Hw. split.
  - intros body op.
    destruct (createReleaseBranches_resolved v p release w1 prss w2 Hs Ht)
      as [reads [Hreads Hrun]].
    cbv zeta in Hrun. fold p2 in Hrun. rewrite Hsplit in Hrun. fold body in Hrun.
    assert (Hloop : trace (for_of (before ++ r :: after) body p2)
                    = trace (for_of before body p2)
                        ++ [ConsoleLog [branch_start_notice v r]] ++ trace op
                        ++ [branch_result_notice r (outcome op); ConsoleLog []]
                        ++ trace (for_of after body (final op))).
    { unfold op, body.
      rewrite (for_of_app _ _ (branch_repository_returns v)). cbn [trace].
      rewrite for_of_cons by apply branch_repository_returns. cbn [trace].
      rewrite branch_repository_accepted by assumption.
      cbn [trace final app]. now rewrite <- ?app_assoc. }
    assert (Htrace : trace (createReleaseBranches handle env v p)
                     = reads ++ trace (for_of before body p2)
                         ++ [ConsoleLog [branch_start_notice v r]] ++ trace op
                         ++ [branch_result_notice r (outcome op); ConsoleLog []]
                         ++ trace (for_of after body (final op))).
    { rewrite Hrun. cbn [trace]. now rewrite Hloop. }
    split; [|split].
    + rewrite Hrun. cbn [outcome].
      apply (for_of_returns _ body (branch_repository_returns v)).
    + exists reads. auto.
    + intros e He. rewrite Htrace, He. cbn [branch_result_notice].
      apply in_app_iff. right. apply in_app_iff. right.
      apply in_app_iff. right. apply in_app_iff. right.
      apply in_app_iff. left. now left.
  - intros body op.
    destruct (createReleasePRs_resolved v p release w1 prss w2 Hs Ht)
      as [reads [Hreads Hrun]].
    cbv zeta in Hrun. fold p2 in Hrun. rewrite Hsplit in Hrun. fold body in Hrun.
    assert (Hloop : trace (for_of (before ++ r :: after) body p2)
                    = trace (for_of before body p2)
                        ++ [ConsoleLog [pr_start_notice r]] ++ trace op
                        ++ [pr_result_notice r (outcome op); ConsoleLog []]
                        ++ trace (for_of after body (final op))).
    { unfold op, body.
      rewrite (for_of_app _ _ (pr_repository_returns v)). cbn [trace].
      rewrite for_of_cons by apply pr_repository_returns. cbn [trace].
      rewrite pr_repository_accepted by assumption.
      cbn [trace final app]. rewrite createBitbucketPr_trace. reflexivity. }
    assert (Htrace : trace (createReleasePRs handle env v p)
                     = reads ++ trace (for_of before body p2)
                         ++ [ConsoleLog [pr_start_notice r]] ++ trace op
                         ++ [pr_result_notice r (outcome op); ConsoleLog []]
                         ++ trace (for_of after body (final op))).
    { rewrite Hrun. cbn [trace]. now rewrite Hloop. }
    split; [|split].
    + rewrite Hrun. cbn [outcome].
      apply (for_of_returns _ body (pr_repository_returns v)).
    + exists reads. auto.
    + intros e He. rewrite Htrace, He. cbn [pr_result_notice].
      apply in_app_iff. right. apply in_app_iff. right.
      apply in_app_iff. right. apply in_app_iff. right.
      apply in_app_iff. left. now left.
Qed.

(** C4. A failure of an operator on one repository is caught, logged with
    the repository name and the error, and the batch goes on.  Let the
    resolved repositories be [before ++ r :: after] with [r] whitelisted.
    Whatever happened for the repositories in [before], either entry point
    returns normally, and its trace is: the reads of the tracker, the
    handling of [before], the line
    ["[-] Creating release branch 'release/<version>' in repository 'r'..."]
    (["[-] Creating release PR for repository 'r'..."]), the complete run
    of the operator on [r] from the state reached, then either the success
    line or, when the operator threw [e], the error line
    ["[X] Error occured when creating release branch for repository 'r':"]
    (["... release PR ..."]) together with [e], a blank line, and the
    handling of [after] from the state the operator left. *)
Theorem operator_failure_does_not_stop_the_batch
        v (p : Process W) release w1 prss w2 before r after :
  handle (SearchJira (jira env) (release_jql v)) (services p) = (inr release, w1) ->
  tracker_pull_requests handle env (issues release) w1 = (inr prss, w2) ->
  Js.uniq (repo_names prss) = before ++ r :: after ->
  In r WHITELISTED_REPOS ->
  let p2 := {| services := w2; exitCode := exitCode p |} in
  (let body := branch_repository handle env v in
   let op := checkoutBranch handle env r (releaseBranchName v)
               (final (for_of before body p2)) in
   outcome (createReleaseBranches handle env v p) = Returned tt
   /\ (exists reads,
         operator_calls reads = []
         /\ trace (createReleaseBranches handle env v p)
            = reads ++ trace (for_of before body p2)
                ++ [ConsoleLog [Str ("[-] Creating release branch 'release/" +++ Js.tmpl v
                                       +++ "' in repository '" +++ r +++ "'...")]]
                ++ trace op
                ++ [branch_verdict r (outcome op); ConsoleLog []]
                ++ trace (for_of after body (final op)))
   /\ (forall e, outcome op = Thrown e ->
         In (ConsoleError
               [Str ("[X] Error occured when creating release branch for repository '"
                       +++ r +++ "':");
                Err e])
            (trace (createReleaseBranches handle env v p))))
  /\
  (let body := pr_repository handle env v in
   let op := createBitbucketPr handle env v r (final (for_of before body p2)) in
   outcome (createReleasePRs handle env v p) = Returned tt
   /\ (exists reads,
         operator_calls reads = []
         /\ trace (createReleasePRs handle env v p)
            = reads ++ trace (for_of before body p2)
                ++ [ConsoleLog [Str ("[-] Creating release PR for repository '"
                                       +++ r +++ "'...")]]
                ++ trace op
                ++ [pr_verdict r (outcome op); ConsoleLog []]
                ++ trace (for_of after body (final op)))
   /\ (forall e, outcome op = Thrown e ->
         In (ConsoleError
               [Str ("[X] Error occured when creating release PR for repository '"
                       +++ r +++ "':");
                Err e])
            (trace (createReleasePRs handle env v p)))).
Proof.
  intros Hs Ht Hsplit Hw p2.
  destruct (batch_goes_on_around_each_repository
              v p release w1 prss w2 before r after Hs Ht Hsplit Hw)
    as [[Hb1 [Hb2 Hb3]] [Hp1 [Hp2 Hp3]]].
  split.
  - split; [exact Hb1|]. split; [exact Hb2 | exact Hb3].
  - split; [exact Hp1|]. split; [exact Hp2 | exact Hp3].
Qed.

(** An operator call made by either entry point is made by its loop. *)
Lemma entry_operator_call v (p : Process W) (loop : list string -> M W unit) (c : Call) :
  is_operator_call c = true ->
  In (Invoke c) (trace ((jiraRes <- getJiraCardsFromRelease handle env v ;;
                         releaseRepos <- getReposFromRelease handle env jiraRes ;;
                         loop releaseRepos) p)) ->
  exists repos q, In (Invoke c) (trace (loop repos q)).
Proof.
  intros Hc. unfold bind.
  pose proof (getJiraCardsFromRelease_reads v p) as Hr1.
  destruct (getJiraCardsFromRelease handle env v p) as [[jiraRes|e] p1 t1];
    cbn [outcome final trace] in *.
  - pose proof (getReposFromRelease_reads jiraRes p1) as Hr2.
    destruct (getReposFromRelease handle env jiraRes p1) as [[repos|e] p2 t2];
      cbn [outcome final trace] in *.
    + intros H. apply operator_event_after_reads in H; [|assumption|assumption].
      apply operator_event_after_reads in H; [|assumption|assumption].
      now exists repos, p2.
    + intros H. apply in_app_iff in H. destruct H as [H | H].
      * rewrite (operator_calls_nil t1 c Hr1 H) in Hc. discriminate.
      * rewrite (operator_calls_nil t2 c Hr2 H) in Hc. discriminate.
  - intros H. rewrite (operator_calls_nil t1 c Hr1 H) in Hc. discriminate.
Qed.

Lemma pr_requests_in (cs : list Call) (data : PrRequestData) :
  In data (pr_requests cs) -> exists u auth, In (AxiosPost u data auth) cs.
Proof.
  induction cs as [|c cs IH]; cbn; [tauto|].
  destruct c; try (intros H; destruct (IH H) as [u [a Hin]]; exists u, a; tauto).
  intros [<- | H]; [do 2 eexists; left; reflexivity|].
  destruct (IH H) as [u [a Hin]]; exists u, a; tauto.
Qed.

(** C6. The pull-request creation request is fixed by the release
    identifier alone: its title is [Release <identifier>], its description
    is empty, its destination branch is [master] and its source branch is
    [release/<identifier>].  Every request the Pull Request Operator sends
    carries exactly that body, and every branch name the Branch Operator
    passes to [checkoutLocalBranch] or [push] is that same source branch
    name; identifier [1.2.3] gives [release/1.2.3] in both places. *)
Theorem pr_request_uses_the_release_branch (ident repo : string) (p : Process W) :
  let v := Some ident in
  let data := BITBUCKET_API_CREATE_PR_REQUEST_DATA v in
  data = {| title := "Release " +++ ident;
            description := EmptyString;
            source_branch_name := "release/" +++ ident;
            destination_branch_name := "master" |}
  /\ releaseBranchName v = source_branch_name data
  /\ pr_requests (calls_of (trace (createBitbucketPr handle env v repo p))) = [data]
  /\ Forall (eq data) (pr_requests (calls_of (trace (createReleasePRs handle env v p))))
  /\ Forall (eq (source_branch_name data))
            (created_branches (calls_of (trace (createReleaseBranches handle env v p))))
  /\ releaseBranchName (Some "1.2.3") = "release/1.2.3"
  /\ source_branch_name (BITBUCKET_API_CREATE_PR_REQUEST_DATA (Some "1.2.3"))
     = "release/1.2.3".
Proof.
  intros v data. repeat split.
  - now rewrite createBitbucketPr_trace.
  - apply Forall_forall. intros d Hd.
    apply pr_requests_in in Hd. destruct Hd as [u [auth Hc]].
    apply in_calls_of in Hc.
    apply (entry_operator_call v p
             (fun repos => for_of repos (pr_repository handle env v))) in Hc;
      [|reflexivity].
    destruct Hc as [repos [q Hc]]. apply pr_loop_calls in Hc.
    destruct Hc as [r [_ [_ Hc]]]. unfold pr_call in Hc. now injection Hc.
  - apply Forall_forall. intros b Hb.
    apply created_branches_in in Hb. destruct Hb as [c [Hc Hshape]].
    apply in_calls_of in Hc.
    apply (entry_operator_call v p
             (fun repos => for_of repos (branch_repository handle env v))) in Hc;
      [|destruct Hshape as [[d ->] | [d [remote [options ->]]]]; reflexivity].
    destruct Hc as [repos [q Hc]]. apply branch_loop_calls in Hc.
    destruct Hc as [r [_ [_ Hc]]]. cbn in Hc.
    destruct Hshape as [[d ->] | [d [remote [options ->]]]];
      repeat (destruct Hc as [Hc | Hc]; [try discriminate; now injection Hc|]);
      destruct Hc.
Qed.

Lemma perform_all_made (steps : list Call) :
  forall w w' made, perform handle steps w = (None, w', made) -> made = steps.
Proof.
  induction steps as [|s steps IH]; intros w w' made; cbn.
  - now intros [= _ <-].
  - destruct (handle s w) as [[e|x] w1]; [discriminate|].
    destruct (perform handle steps w1) as [[res w2] made'] eqn:Hp.
    intros [= -> _ <-]. f_equal. now apply (IH w1 w2).
Qed.

(** C7, as the code has it.  On the working copy of an accepted
    repository the Branch Operator opens the working copy, queries its
    status, stashes exactly when the status is not clean, fetches, checks
    out [dev], pulls, creates the local branch and pushes it to [origin],
    in this order and stopping at the first step that fails; a run that
    returns has made all of these calls; and the push is given no option,
    so no call of the sequence asks for upstream tracking. *)
Theorem branch_operator_sequence (r b : string) (p : Process W) :
  let dir := REPO_BASE_PATH env +++ r in
  let run := checkoutBranch handle env r b p in
  (match branch_sequence handle dir b (services p) with
   | (res, w', cs) =>
       outcome run = match res with
                     | None => Returned tt
                     | Some e => Thrown e
                     end
       /\ final run = {| services := w'; exitCode := exitCode p |}
       /\ calls_of (trace run) = cs
   end)
  /\ (outcome run = Returned tt ->
      exists clean : bool,
        calls_of (trace run)
        = [SimpleGit dir; Git dir Status]
            ++ (if clean then [] else [Git dir Stash])
            ++ [ Git dir Fetch; Git dir (Checkout "dev"); Git dir Pull;
                 Git dir (CheckoutLocalBranch b); Git dir (Push "origin" b []) ])
  /\ (forall c, In c (calls_of (trace run)) -> requests_upstream c = false).
Proof.
  intros dir run. split; [apply checkoutBranch_run|]. split.
  - pose proof (checkoutBranch_run r b p) as Hrun. cbv zeta in Hrun.
    fold dir run in Hrun. unfold branch_sequence in Hrun.
    destruct (handle (SimpleGit dir) (services p)) as [[e|x] w1].
    { destruct Hrun as [Ho _]. rewrite Ho. discriminate. }
    destruct (handle (Git dir Status) w1) as [[e|status] w2].
    { destruct Hrun as [Ho _]. rewrite Ho. discriminate. }
    destruct (perform handle (steps_after_status dir b status) w2)
      as [[res w3] made] eqn:Hp.
    destruct Hrun as [Ho [_ Hc]]. rewrite Ho, Hc.
    destruct res as [e|]; [discriminate|]. intros _.
    apply perform_all_made in Hp. subst made.
    exists (isClean status). reflexivity.
  - intros c Hc.
    apply (proj2 (checkoutBranch_calls r b p)) in Hc. cbn in Hc.
    repeat (destruct Hc as [<- | Hc]; [reflexivity|]). destruct Hc.
Qed.

(** *** The dispatcher *)

Lemma invalid_action_not_included (a : option string) :
  a <> Some "check" -> a <> Some "release_branch" -> a <> Some "release_pr" ->
  Js.includes_opt RELEASE_ACTIONS a = false.
Proof.
  intros H1 H2 H3. destruct a as [s|]; [|reflexivity].
  cbn. destruct (String.eqb_spec s "check"); [congruence|].
  destruct (String.eqb_spec s "release_branch"); [congruence|].
  destruct (String.eqb_spec s "release_pr"); [congruence|].
  reflexivity.
Qed.

(** C9. An action token that is none of [check], [release_branch] and
    [release_pr] (an absent token included) makes the script print the
    error [Invalid action], followed by the token between double quotes
    ([undefined] for an absent token) and [!], and return: that error is the
    only event, so no
    entry point runs and no external call is made, and the process state,
    exit code included, is what it was.  Each of the three tokens runs
    exactly its own entry point and nothing else. *)
Theorem dispatcher_runs_one_entry_point_or_none (argv : list string) (p : Process W) :
  let releaseAction := Js.at_index argv 2 in
  let releaseVersion := Js.at_index argv 3 in
  (releaseAction <> Some "check" ->
   releaseAction <> Some "release_branch" ->
   releaseAction <> Some "release_pr" ->
   main handle env argv p
   = mkRun (Returned tt) p
       [ConsoleError
          [Str ("Invalid action "
                  +++ String "034" (match releaseAction with
                                    | Some token => token
                                    | None => "undefined"
                                    end +++ String "034" "!"))]])
  /\ (releaseAction = Some "check" ->
      main handle env argv p = displayReleaseDetails handle env releaseVersion p)
  /\ (releaseAction = Some "release_branch" ->
      main handle env argv p = createReleaseBranches handle env releaseVersion p)
  /\ (releaseAction = Some "release_pr" ->
      main handle env argv p = createReleasePRs handle env releaseVersion p).
Proof.
  intros releaseAction releaseVersion. unfold main. fold releaseAction releaseVersion.
  repeat split.
  - intros H1 H2 H3. now rewrite invalid_action_not_included.
  - intros ->. reflexivity.
  - intros ->. reflexivity.
  - intros ->. reflexivity.
Qed.

Lemma entry_starts_with_search v (p : Process W) {A} (k : option Release -> M W A) :
  exists rest,
    trace ((jiraRes <- getJiraCardsFromRelease handle env v ;; k jiraRes) p)
    = Invoke (SearchJira (jira env) (release_jql v)) :: rest.
Proof.
  unfold bind.
  destruct (handle (SearchJira (jira env) (release_jql v)) (services p))
    as [[e|release] w1] eqn:H.
  - rewrite (getJiraCardsFromRelease_rejects v p e w1 H). cbn. eauto.
  - rewrite (getJiraCardsFromRelease_resolves v p release w1 H). cbn. eauto.
Qed.

(** C10. The release identifier is not validated.  With a valid action
    and no fourth argument the script runs the entry point of the action
    with [undefined] as the release version: the branch name is
    [release/undefined], the title of the pull request is
    [Release undefined], and the first thing the entry point does is to
    search the tracker for fix version ["undefined"]. *)
Theorem missing_release_identifier_is_not_rejected
        (argv : list string) (action : string) (p : Process W) :
  Js.at_index argv 2 = Some action ->
  In action RELEASE_ACTIONS ->
  Js.at_index argv 3 = None ->
  releaseBranchName None = "release/undefined"
  /\ title (BITBUCKET_API_CREATE_PR_REQUEST_DATA None) = "Release undefined"
  /\ source_branch_name (BITBUCKET_API_CREATE_PR_REQUEST_DATA None) = "release/undefined"
  /\ release_jql None = "project = DC AND fixVersion = " +++ Js.dq +++ "undefined" +++ Js.dq
  /\ ((action = "check"
       /\ main handle env argv p = displayReleaseDetails handle env None p)
      \/ (action = "release_branch"
          /\ main handle env argv p = createReleaseBranches handle env None p)
      \/ (action = "release_pr"
          /\ main handle env argv p = createReleasePRs handle env None p))
  /\ exists rest,
       trace (main handle env argv p)
       = Invoke (SearchJira (jira env) (release_jql None)) :: rest.
Proof.
  intros Ha Hin Hv. repeat split.
  - unfold main. rewrite Ha, Hv. cbn in Hin.
    destruct Hin as [<- | [<- | [<- | []]]]; cbn; tauto.
  - unfold main. rewrite Ha, Hv. cbn in Hin.
    destruct Hin as [<- | [<- | [<- | []]]]; cbn [Js.includes_opt negb String.eqb];
      change (Js.includes RELEASE_ACTIONS _) with true; cbn [negb].
    + apply (entry_starts_with_search None p).
    + apply (entry_starts_with_search None p).
    + apply (entry_starts_with_search None p).
Qed.

(** *** A failing search *)

(** After a rejected search every entry point reads [issues] of
    [undefined]: it logs the failure and then ends with a [TypeError],
    before any table is printed or any operator is called. *)
Lemma search_failure_ends_in_type_error v (p : Process W) e w1 :
  handle (SearchJira (jira env) (release_jql v)) (services p) = (inl e, w1) ->
  let crash :=
    mkRun (A := unit) (Thrown (property_of_undefined "issues"))
          {| services := w1; exitCode := exitCode p |}
          [Invoke (SearchJira (jira env) (release_jql v));
           ConsoleError [Str "Error retrieving Jira cards from the release:";
                         Str (message_of e)]] in
  displayReleaseDetails handle env v p = crash
  /\ createReleaseBranches handle env v p = crash
  /\ createReleasePRs handle env v p = crash.
Proof.
  intros H crash.
  pose proof (getJiraCardsFromRelease_rejects v p e w1 H) as Hcards.
  unfold displayReleaseDetails, createReleaseBranches, createReleasePRs.
  repeat split; unfold bind at 1; rewrite Hcards; reflexivity.
Qed.

End Properties.

(* ------------------------------------------------------------------ *)
(** ** The properties on the concrete services *)

Lemma operators_act_on_whitelisted_release_repositories_witness :
  let h := Scenario.handle Scenario.no_fault in
  let prss := [Scenario.prsX; Scenario.prsY] in
  let tb := trace (createReleaseBranches h Scenario.env (Some "2.0.0") Scenario.start) in
  let tp := trace (createReleasePRs h Scenario.env (Some "2.0.0") Scenario.start) in
  (forall d, In d (branch_targets (calls_of tb))
             <-> exists r, d = REPO_BASE_PATH Scenario.env +++ r
                           /\ referenced prss r /\ In r WHITELISTED_REPOS)
  /\ (forall u, In u (pr_targets (calls_of tp))
                <-> exists r, u = pullrequests_url r
                              /\ referenced prss r /\ In r WHITELISTED_REPOS)
  /\ pr_targets (calls_of tb) = []
  /\ branch_targets (calls_of tp) = []
  /\ (forall r, referenced prss r -> ~ In r WHITELISTED_REPOS ->
        In (ConsoleLog [Str ("[!] " +++ r +++ " should not be deployed by Open Platform, skip creating release branch")]) tb
        /\ In (ConsoleLog [Str ("[!] " +++ r +++ " should not be deployed by Open Platform, skip creating release PR")]) tp
        /\ ~ In (REPO_BASE_PATH Scenario.env +++ r) (branch_targets (calls_of tb))
        /\ ~ In (pullrequests_url r) (pr_targets (calls_of tp))).
Proof.
  refine (operators_act_on_whitelisted_release_repositories
            _ (Scenario.handle Scenario.no_fault) Scenario.env (Some "2.0.0")
            Scenario.start Scenario.release_2_0_0 _ [Scenario.prsX; Scenario.prsY] _ _ _).
  - reflexivity.
  - reflexivity.
Defined.

Lemma detail_failure_fails_resolution_witness :
  let h := Scenario.handle (Scenario.detail_fails_for "1002") in
  let e := ServiceError "service unavailable" in
  outcome (getReposFromRelease h Scenario.env (Some Scenario.release_2_0_0)
             Scenario.searched) = Thrown e
  /\ outcome (createReleaseBranches h Scenario.env (Some "2.0.0") Scenario.start) = Thrown e
  /\ operator_calls (trace (createReleaseBranches h Scenario.env (Some "2.0.0")
                              Scenario.start)) = []
  /\ outcome (createReleasePRs h Scenario.env (Some "2.0.0") Scenario.start) = Thrown e
  /\ operator_calls (trace (createReleasePRs h Scenario.env (Some "2.0.0")
                              Scenario.start)) = [].
Proof.
  refine (detail_failure_fails_resolution
            _ (Scenario.handle (Scenario.detail_fails_for "1002")) Scenario.env
            (Some "2.0.0") Scenario.start Scenario.release_2_0_0 _
            [Scenario.issueX] Scenario.issueY [] [Scenario.prsX] _
            (ServiceError "service unavailable") _ _ _ _ _).
  - reflexivity.
  - reflexivity.
  - reflexivity.
  - reflexivity.
Defined.

Lemma operator_failure_does_not_stop_the_batch_witness :
  let h := Scenario.handle (Scenario.operators_fail_in "developer-api") in
  let v := Some "2.0.0" in
  let p2 := Scenario.resolved in
  let failure := ServiceError "service unavailable" in
  ((let body := branch_repository h Scenario.env v in
   let op := checkoutBranch h Scenario.env "developer-api" (releaseBranchName v)
               (final (for_of [] body p2)) in
   outcome (createReleaseBranches h Scenario.env v Scenario.start) = Returned tt
   /\ (exists reads,
         operator_calls reads = []
         /\ trace (createReleaseBranches h Scenario.env v Scenario.start)
            = reads ++ trace (for_of [] body p2)
                ++ [ConsoleLog [Str ("[-] Creating release branch 'release/" +++ Js.tmpl v
                                       +++ "' in repository '" +++ "developer-api" +++ "'...")]]
                ++ trace op
                ++ [branch_verdict "developer-api" (outcome op); ConsoleLog []]
                ++ trace (for_of ["scratchpad"; "storefront-api"] body (final op)))
   /\ (forall e, outcome op = Thrown e ->
         In (ConsoleError
               [Str ("[X] Error occured when creating release branch for repository '"
                       +++ "developer-api" +++ "':");
                Err e])
            (trace (createReleaseBranches h Scenario.env v Scenario.start))))
  /\
  (let body := pr_repository h Scenario.env v in
   let op := createBitbucketPr h Scenario.env v "developer-api" (final (for_of [] body p2)) in
   outcome (createReleasePRs h Scenario.env v Scenario.start) = Returned tt
   /\ (exists reads,
         operator_calls reads = []
         /\ trace (createReleasePRs h Scenario.env v Scenario.start)
            = reads ++ trace (for_of [] body p2)
                ++ [ConsoleLog [Str ("[-] Creating release PR for repository '"
                                       +++ "developer-api" +++ "'...")]]
                ++ trace op
                ++ [pr_verdict "developer-api" (outcome op); ConsoleLog []]
                ++ trace (for_of ["scratchpad"; "storefront-api"] body (final op)))
   /\ (forall e, outcome op = Thrown e ->
         In (ConsoleError
               [Str ("[X] Error occured when creating release PR for repository '"
                       +++ "developer-api" +++ "':");
                Err e])
            (trace (createReleasePRs h Scenario.env v Scenario.start)))))
  /\ In (ConsoleError
           [Str "[X] Error occured when creating release branch for repository 'developer-api':";
            Err failure])
        (trace (createReleaseBranches h Scenario.env v Scenario.start))
  /\ In (ConsoleError
           [Str "[X] Error occured when creating release PR for repository 'developer-api':";
            Err failure])
        (trace (createReleasePRs h Scenario.env v Scenario.start))
  /\ ((let body := branch_repository h Scenario.env v in
   let op := checkoutBranch h Scenario.env "storefront-api" (releaseBranchName v)
               (final (for_of ["developer-api"; "scratchpad"] body p2)) in
   outcome (createReleaseBranches h Scenario.env v Scenario.start) = Returned tt
   /\ (exists reads,
         operator_calls reads = []
         /\ trace (createReleaseBranches h Scenario.env v Scenario.start)
            = reads ++ trace (for_of ["developer-api"; "scratchpad"] body p2)
                ++ [ConsoleLog [Str ("[-] Creating release branch 'release/" +++ Js.tmpl v
                                       +++ "' in repository '" +++ "storefront-api" +++ "'...")]]
                ++ trace op
                ++ [branch_verdict "storefront-api" (outcome op); ConsoleLog []]
                ++ trace (for_of [] body (final op)))
   /\ (forall e, outcome op = Thrown e ->
         In (ConsoleError
               [Str ("[X] Error occured when creating release branch for repository '"
                       +++ "storefront-api" +++ "':");
                Err e])
            (trace (createReleaseBranches h Scenario.env v Scenario.start))))
  /\
  (let body := pr_repository h Scenario.env v in
   let op := createBitbucketPr h Scenario.env v "storefront-api" (final (for_of ["developer-api"; "scratchpad"] body p2)) in
   outcome (createReleasePRs h Scenario.env v Scenario.start) = Returned tt
   /\ (exists reads,
         operator_calls reads = []
         /\ trace (createReleasePRs h Scenario.env v Scenario.start)
            = reads ++ trace (for_of ["developer-api"; "scratchpad"] body p2)
                ++ [ConsoleLog [Str ("[-] Creating release PR for repository '"
                                       +++ "storefront-api" +++ "'...")]]
                ++ trace op
                ++ [pr_verdict "storefront-api" (outcome op); ConsoleLog []]
                ++ trace (for_of [] body (final op)))
   /\ (forall e, outcome op = Thrown e ->
         In (ConsoleError
               [Str ("[X] Error occured when creating release PR for repository '"
                       +++ "storefront-api" +++ "':");
                Err e])
            (trace (createReleasePRs h Scenario.env v Scenario.start))))).
Proof.
  intros h v p2 failure.
  assert (HA := operator_failure_does_not_stop_the_batch
                  _ h Scenario.env v Scenario.start Scenario.release_2_0_0
                  (services Scenario.searched) [Scenario.prsX; Scenario.prsY]
                  (services Scenario.resolved)
                  [] "developer-api" ["scratchpad"; "storefront-api"]
                  eq_refl eq_refl eq_refl (or_introl eq_refl)).
  assert (HB := operator_failure_does_not_stop_the_batch
                  _ h Scenario.env v Scenario.start Scenario.release_2_0_0
                  (services Scenario.searched) [Scenario.prsX; Scenario.prsY]
                  (services Scenario.resolved)
                  ["developer-api"; "scratchpad"] "storefront-api" []
                  eq_refl eq_refl eq_refl
                  (or_intror (or_intror (or_intror (or_intror (or_intror (or_intror
                     (or_intror (or_intror (or_intror (or_introl eq_refl))))))))))).
  split; [exact HA|]. split; [|split; [|exact HB]].
  - exact (proj2 (proj2 (proj1 HA)) failure eq_refl).
  - exact (proj2 (proj2 (proj2 HA)) failure eq_refl).
Defined.

Lemma resolver_returns_distinct_repositories_witness :
  exists repos,
    outcome (getReposFromRelease (Scenario.handle Scenario.no_fault) Scenario.env
               (Some Scenario.release_2_0_0) Scenario.searched) = Returned repos
    /\ NoDup repos
    /\ (forall r, In r repos <-> referenced [Scenario.prsX; Scenario.prsY] r)
    /\ (issues Scenario.release_2_0_0 = [] -> repos = []).
Proof.
  refine (resolver_returns_distinct_repositories
            _ (Scenario.handle Scenario.no_fault) Scenario.env
            Scenario.release_2_0_0 Scenario.searched [Scenario.prsX; Scenario.prsY] _ _).
  reflexivity.
Defined.

Lemma issue_without_pull_requests_contributes_nothing_witness :
  let r := getReposFromRelease (Scenario.handle Scenario.no_fault) Scenario.env
             (Some {| issues := [Scenario.issueX] ++ Scenario.issueZ :: [Scenario.issueY] |})
             Scenario.searched in
  outcome r = Returned (Js.uniq (repo_names ([Scenario.prsX] ++ [Scenario.prsY])))
  /\ (forall name, (exists repos, outcome r = Returned repos /\ In name repos)
                   <-> referenced ([Scenario.prsX] ++ [Scenario.prsY]) name).
Proof.
  refine (issue_without_pull_requests_contributes_nothing
            _ (Scenario.handle Scenario.no_fault) Scenario.env
            [Scenario.issueX] Scenario.issueZ [Scenario.issueY] Scenario.searched
            [Scenario.prsX] _ _ {| pullRequests := [] |} [] _ [Scenario.prsY] _
            _ _ _ _ _).
  - reflexivity.
  - reflexivity.
  - reflexivity.
  - reflexivity.
  - reflexivity.
Defined.

Lemma dispatcher_runs_one_entry_point_or_none_witness :
  main (Scenario.handle Scenario.no_fault) Scenario.env (Scenario.argv ["deploy"; "2.0.0"])
       Scenario.start
  = mkRun (Returned tt) Scenario.start
          [ConsoleError
             [Str ("Invalid action " +++ String "034" ("deploy" +++ String "034" "!"))]]
  /\ main (Scenario.handle Scenario.no_fault) Scenario.env (Scenario.argv []) Scenario.start
     = mkRun (Returned tt) Scenario.start
         [ConsoleError
            [Str ("Invalid action " +++ String "034" ("undefined" +++ String "034" "!"))]]
  /\ main (Scenario.handle Scenario.no_fault) Scenario.env
          (Scenario.argv ["release_pr"; "2.0.0"]) Scenario.start
     = createReleasePRs (Scenario.handle Scenario.no_fault) Scenario.env (Some "2.0.0")
         Scenario.start.
Proof.
  split; [|split].
  - apply (dispatcher_runs_one_entry_point_or_none
             _ (Scenario.handle Scenario.no_fault) Scenario.env
             (Scenario.argv ["deploy"; "2.0.0"]) Scenario.start); discriminate.
  - apply (dispatcher_runs_one_entry_point_or_none
             _ (Scenario.handle Scenario.no_fault) Scenario.env
             (Scenario.argv []) Scenario.start); discriminate.
  - apply (dispatcher_runs_one_entry_point_or_none
             _ (Scenario.handle Scenario.no_fault) Scenario.env
             (Scenario.argv ["release_pr"; "2.0.0"]) Scenario.start). reflexivity.
Defined.

Lemma missing_release_identifier_is_not_rejected_witness :
  let h := Scenario.handle Scenario.no_fault in
  let argv := Scenario.argv ["release_branch"] in
  releaseBranchName None = "release/undefined"
  /\ title (BITBUCKET_API_CREATE_PR_REQUEST_DATA None) = "Release undefined"
  /\ source_branch_name (BITBUCKET_API_CREATE_PR_REQUEST_DATA None) = "release/undefined"
  /\ release_jql None = "project = DC AND fixVersion = " +++ Js.dq +++ "undefined" +++ Js.dq
  /\ (("release_branch" = "check"
       /\ main h Scenario.env argv Scenario.start
          = displayReleaseDetails h Scenario.env None Scenario.start)
      \/ ("release_branch" = "release_branch"
          /\ main h Scenario.env argv Scenario.start
             = createReleaseBranches h Scenario.env None Scenario.start)
      \/ ("release_branch" = "release_pr"
          /\ main h Scenario.env argv Scenario.start
             = createReleasePRs h Scenario.env None Scenario.start))
  /\ exists rest,
       trace (main h Scenario.env argv Scenario.start)
       = Invoke (SearchJira (jira Scenario.env) (release_jql None)) :: rest.
Proof.
  refine (missing_release_identifier_is_not_rejected
            _ (Scenario.handle Scenario.no_fault) Scenario.env
            (Scenario.argv ["release_branch"]) "release_branch" Scenario.start _ _ _).
  - reflexivity.
  - cbn. right. left. reflexivity.
  - reflexivity.
Defined.

(** C8, as stated, fails: it has the resolution succeed for every issue
    with zero linked pull requests, but when the tracker answers the detail
    request of such an issue without any development-panel entry, the
    resolver reads [pullRequests] of [detail[0]], which is [undefined], and
    throws instead of returning. *)
Lemma issue_without_development_entry_fails_resolution :
  fst (Scenario.handle_bare (getPRsFromJira Scenario.env (id Scenario.issueZ)) [])
  = inr {| detail := [] |}
  /\ outcome (getReposFromRelease Scenario.handle_bare Scenario.env
                (Some {| issues := [Scenario.issueZ] |}) Scenario.start)
     = Thrown (TypeError "Cannot read properties of undefined (reading 'pullRequests')")
  /\ ~ (exists repos,
          outcome (getReposFromRelease Scenario.handle_bare Scenario.env
                     (Some {| issues := [Scenario.issueZ] |}) Scenario.start)
          = Returned repos).
Proof.
  split; [reflexivity|]. split; [reflexivity|].
  intros [repos H]. discriminate H.
Qed.

(** C7, as stated, fails: it has the last step set upstream tracking, but
    on the working copy of [developer-api], with every step succeeding, the
    Branch Operator pushes with [push("origin", "release/2.0.0")] and no
    option, and no call of its sequence asks for upstream tracking. *)
Lemma branch_operator_push_sets_no_upstream :
  let cs := calls_of (trace (checkoutBranch (Scenario.handle Scenario.no_fault)
                               Scenario.env "developer-api" "release/2.0.0"
                               Scenario.resolved)) in
  last cs (SimpleGit EmptyString)
  = Git "/home/dev/Documents/developer-api" (Push "origin" "release/2.0.0" [])
  /\ ~ (exists c, In c cs /\ requests_upstream c = true).
Proof.
  split.
  - reflexivity.
  - intros [c [Hc Hup]]. vm_compute in Hc.
    repeat (destruct Hc as [<- | Hc]; [discriminate Hup|]). destruct Hc.
Qed.

(** C2, on a tracker whose search rejects: the failure is logged and the
    caller of the search receives [undefined], but then each of the three
    entry points reads [issues] of [undefined] and ends with an uncaught
    [TypeError]; it does so before any table is printed and before any
    operator is called. *)
Theorem failed_search_ends_every_action_in_type_error :
  let h := Scenario.handle Scenario.search_fails in
  let v := Some "2.0.0" in
  let crash :=
    mkRun (A := unit)
          (Thrown (TypeError "Cannot read properties of undefined (reading 'issues')"))
          Scenario.searched
          [Invoke Scenario.search;
           ConsoleError [Str "Error retrieving Jira cards from the release:";
                         Str "service unavailable"]] in
  getJiraCardsFromRelease h Scenario.env v Scenario.start
  = mkRun (Returned None) Scenario.searched (trace crash)
  /\ main h Scenario.env (Scenario.argv ["check"; "2.0.0"]) Scenario.start = crash
  /\ main h Scenario.env (Scenario.argv ["release_branch"; "2.0.0"]) Scenario.start = crash
  /\ main h Scenario.env (Scenario.argv ["release_pr"; "2.0.0"]) Scenario.start = crash.
Proof.
  intros h v crash.
  destruct (search_failure_ends_in_type_error
              _ h Scenario.env v Scenario.start
              (ServiceError "service unavailable") [Scenario.search] eq_refl)
    as [Hcheck [Hbranch Hpr]].
  split; [reflexivity|].
  split; [exact Hcheck|]. split; [exact Hbranch | exact Hpr].
Qed.

(* ------------------------------------------------------------------ *)
(** ** Runs on the concrete services *)

Example uniq_keeps_first_occurrences :
  Js.uniq ["developer-api"; "scratchpad"; "developer-api"; "storefront-api"; "scratchpad"]
  = ["developer-api"; "scratchpad"; "storefront-api"].
Proof. reflexivity. Qed.

Example replace_first_occurrence_only :
  Js.replace "a/REPO_SLUG/b/REPO_SLUG" "REPO_SLUG" "sub9-api" = "a/sub9-api/b/REPO_SLUG".
Proof. reflexivity. Qed.

Example replace_expands_dollar_patterns :
  Js.replace "a/REPO_SLUG/b" "REPO_SLUG" "x$$y$&z" = "a/x$yREPO_SLUGz/b".
Proof. reflexivity. Qed.

Example resolved_repositories_of_release_2_0_0 :
  outcome (getReposFromRelease (Scenario.handle Scenario.no_fault) Scenario.env
             (Some Scenario.release_2_0_0) Scenario.searched)
  = Returned ["developer-api"; "scratchpad"; "storefront-api"].
Proof. reflexivity. Qed.

Example check_prints_one_row_per_issue :
  trace (main (Scenario.handle Scenario.no_fault) Scenario.env
           (Scenario.argv ["check"; "2.0.0"]) Scenario.start)
  = [ Invoke Scenario.search;
      Invoke (getPRsFromJira Scenario.env "1001");
      Invoke (getPRsFromJira Scenario.env "1002");
      ConsoleTable
        [ ("DC-1", [ ("Summary", Some "Summary of DC-1"); ("Status", Some "Done");
                     ("Repo", Some "developer-api,scratchpad");
                     ("Author(s)", Some "ann,bob");
                     ("Linked issues", Some "DC-2");
                     ("Deployment remarks", None) ]);
          ("DC-2", [ ("Summary", Some "Summary of DC-2"); ("Status", Some "Done");
                     ("Repo", Some "developer-api,storefront-api");
                     ("Author(s)", Some "cy");
                     ("Linked issues", Some "DC-1");
                     ("Deployment remarks", None) ]) ] ].
Proof. reflexivity. Qed.

Example release_branch_goes_on_after_a_failed_pull :
  let dir := "/home/dev/Documents/" in
  let r := main (Scenario.handle (Scenario.pull_fails_in "developer-api")) Scenario.env
             (Scenario.argv ["release_branch"; "2.0.0"]) Scenario.start in
  outcome r = Returned tt
  /\ operator_calls (trace r)
     = [ SimpleGit (dir +++ "developer-api");
         Git (dir +++ "developer-api") Status;
         Git (dir +++ "developer-api") Stash;
         Git (dir +++ "developer-api") Fetch;
         Git (dir +++ "developer-api") (Checkout "dev");
         Git (dir +++ "developer-api") Pull;
         SimpleGit (dir +++ "storefront-api");
         Git (dir +++ "storefront-api") Status;
         Git (dir +++ "storefront-api") Stash;
         Git (dir +++ "storefront-api") Fetch;
         Git (dir +++ "storefront-api") (Checkout "dev");
         Git (dir +++ "storefront-api") Pull;
         Git (dir +++ "storefront-api") (CheckoutLocalBranch "release/2.0.0");
         Git (dir +++ "storefront-api") (Push "origin" "release/2.0.0" []) ]
  /\ In (ConsoleError [branch_error_notice "developer-api";
                       Err (ServiceError "service unavailable")]) (trace r)
  /\ In (ConsoleLog [branch_skip_notice "scratchpad"]) (trace r).
Proof.
  cbv zeta. repeat split; vm_compute; tauto.
Qed.

Example release_pr_goes_on_after_a_failed_post :
  filter (fun ev => match ev with ConsoleLog [] => false | _ => true end)
    (skipn 3 (trace (main (Scenario.handle Scenario.post_fails) Scenario.env
                       (Scenario.argv ["release_pr"; "2.0.0"]) Scenario.start)))
  = [ ConsoleLog [pr_start_notice "developer-api"];
      Invoke (pr_call Scenario.env (Some "2.0.0") "developer-api");
      ConsoleError [pr_error_notice "developer-api";
                    Err (ServiceError "service unavailable")];
      ConsoleLog [pr_skip_notice "scratchpad"];
      ConsoleLog [pr_start_notice "storefront-api"];
      Invoke (pr_call Scenario.env (Some "2.0.0") "storefront-api");
      ConsoleError [pr_error_notice "storefront-api";
                    Err (ServiceError "service unavailable")] ].
Proof. reflexivity. Qed.

Example whitelist_match_is_exact :
  Js.includes WHITELISTED_REPOS "developer-api" = true
  /\ Js.includes WHITELISTED_REPOS "Developer-API" = false
  /\ Js.includes WHITELISTED_REPOS "developer-api " = false.
Proof. repeat split. Qed.

(* ------------------------------------------------------------------ *)
(** ** Further facts about the prelude *)

Lemma includes_app (a b : list string) (x : string) :
  Js.includes (a ++ b) x = Js.includes a x || Js.includes b x.
Proof. unfold Js.includes. apply existsb_app. Qed.

Lemma filter_filter {A} (f g : A -> bool) (l : list A) :
  filter f (filter g l) = filter (fun x => g x && f x) l.
Proof.
  induction l as [|a l IH]; cbn; [reflexivity|].
  destruct (g a); cbn; [destruct (f a)|]; now rewrite IH.
Qed.

Lemma uniq_fold_first_occurrences (l : list string) :
  forall seen,
    fold_left Js.uniq_step l seen
    = seen ++ filter (fun x => negb (Js.includes seen x)) (first_occurrences l).
Proof.
  induction l as [|a l IH]; intros seen; cbn [fold_left first_occurrences filter].
  - now rewrite app_nil_r.
  - unfold Js.uniq_step at 2. destruct (Js.includes seen a) eqn:Ha; cbn [negb].
    + rewrite IH. f_equal. rewrite filter_filter. apply filter_ext_in.
      intros x _. destruct (String.eqb_spec x a); [subst; now rewrite Ha|reflexivity].
    + rewrite IH, <- app_assoc. cbn [app]. do 2 f_equal.
      rewrite filter_filter. apply filter_ext. intros x.
      rewrite includes_app. cbn. rewrite orb_false_r.
      destruct (Js.includes seen x), (String.eqb x a); reflexivity.
Qed.

Lemma uniq_first_occurrences (l : list string) : Js.uniq l = first_occurrences l.
Proof.
  unfold Js.uniq. rewrite uniq_fold_first_occurrences. cbn.
  clear. induction (first_occurrences l) as [|a t IH]; cbn; [reflexivity|].
  now rewrite IH.
Qed.

Lemma filter_all {A} (f : A -> bool) (l : list A) :
  (forall x, In x l -> f x = true) -> filter f l = l.
Proof.
  induction l as [|a l IH]; intros H; cbn; [reflexivity|].
  rewrite (H a (or_introl eq_refl)). f_equal. apply IH. intros x Hx. apply H. now right.
Qed.

Lemma uniq_of_NoDup (l : list string) : NoDup l -> Js.uniq l = l.
Proof.
  rewrite uniq_first_occurrences.
  induction 1 as [|a l Hin Hnd IH]; cbn; [reflexivity|].
  rewrite IH. f_equal. apply filter_all. intros x Hx.
  destruct (String.eqb_spec x a); [subst; contradiction | reflexivity].
Qed.

Lemma uniq_idempotent (l : list string) : Js.uniq (Js.uniq l) = Js.uniq l.
Proof. apply uniq_of_NoDup, uniq_NoDup. Qed.

Lemma uniq_app (a b : list string) :
  Js.uniq (a ++ b)
  = Js.uniq a ++ filter (fun x => negb (Js.includes (Js.uniq a) x)) (Js.uniq b).
Proof.
  unfold Js.uniq at 1. rewrite fold_left_app.
  change (fold_left Js.uniq_step a []) with (Js.uniq a).
  now rewrite uniq_fold_first_occurrences, (uniq_first_occurrences b).
Qed.

Lemma uniq_flat_map_uniq {A} (g : A -> list string) (l : list A) :
  Js.uniq (flat_map (fun x => Js.uniq (g x)) l) = Js.uniq (flat_map g l).
Proof.
  induction l as [|x l IH]; cbn [flat_map]; [reflexivity|].
  now rewrite !uniq_app, uniq_idempotent, IH.
Qed.

(* ------------------------------------------------------------------ *)
(** ** Further properties of the script *)

Section Further.

Variable W : Type.
Variable handle : forall c : Call, W -> (Exn + Resp c) * W.
Variable env : Env.

(** *** The resolver, call by call *)

Lemma collect_loop_trace (l : list Issue) :
  forall (acc : list string) (p : Process W),
    let r := for_index l acc (collect_issue_repos handle env) p in
    exists n,
      n <= length l
      /\ trace r = map Invoke (firstn n (map (fun i => getPRsFromJira env (id i)) l))
      /\ (forall repos, outcome r = Returned repos -> n = length l)
      /\ (forall e, outcome r = Thrown e ->
            exists before i after prss w,
              l = before ++ i :: after
              /\ n = S (length before)
              /\ tracker_pull_requests handle env before (services p) = (inr prss, w)
              /\ ((exists w', handle (getPRsFromJira env (id i)) w = (inl e, w'))
                  \/ (exists d w',
                        handle (getPRsFromJira env (id i)) w = (inr d, w')
                        /\ detail d = []
                        /\ e = property_of_undefined "pullRequests"))).
Proof.
  induction l as [|i l IH]; intros acc p; cbn [for_index].
  - exists 0. cbn. repeat split; auto; discriminate.
  - unfold bind. rewrite collect_issue_repos_run.
    destruct (handle (getPRsFromJira env (id i)) (services p)) as [[e0|d] w1] eqn:Hh.
    + exists 1. cbn [outcome trace length map firstn].
      split; [lia|]. split; [reflexivity|]. split; [discriminate|].
      intros e [= <-]. exists [], i, l, [], (services p).
      repeat split. left. now exists w1.
    + destruct (detail d) as [|entry others] eqn:Hd.
      * exists 1. cbn [outcome trace length map firstn].
        split; [lia|]. split; [reflexivity|]. split; [discriminate|].
        intros e [= <-]. exists [], i, l, [], (services p).
        repeat split. right. now exists d, w1.
      * cbn [outcome final trace].
        destruct (IH (acc ++ Js.uniq (map repositoryName (pullRequests entry)))
                     {| services := w1; exitCode := exitCode p |})
          as [n [Hn [Ht [Ho He]]]].
        exists (S n). cbn [length map firstn app].
        split; [lia|]. split; [now rewrite Ht|]. split.
        -- intros repos Hr. f_equal. now apply (Ho repos).
        -- intros e Hr. destruct (He e Hr) as [before [j [after [prss [w H]]]]].
           destruct H as [Hl [Hlen [Htr Hfail]]]. cbn [services] in Htr.
           exists (i :: before), j, after, (pullRequests entry :: prss), w.
           split; [now rewrite Hl|]. split; [cbn; now rewrite Hlen|].
           split; [|exact Hfail].
           cbn [tracker_pull_requests]. now rewrite Hh, Hd, Htr.
Qed.

(** X1. The resolver asks the tracker for the pull requests of one issue
    after the other, in the order of the release, and does nothing else: its
    trace is the detail requests of the first [n] issues.  When it returns
    it has asked for every issue.  When it throws, the requests of the first
    [n - 1] issues were answered with an entry and its last request, for
    issue [n], is the one that failed: the tracker rejected it with the
    error thrown, or answered it without any development-panel entry and
    the error is the [TypeError] of reading [pullRequests] of [undefined].
    Called with [undefined] instead of a release, the resolver throws the
    [TypeError] of reading [issues] without any request. *)
Theorem resolver_asks_once_per_issue_in_order (release : Release) (p : Process W) :
  let r := getReposFromRelease handle env (Some release) p in
  let requests := map (fun i => getPRsFromJira env (id i)) (issues release) in
  (exists n,
     n <= length (issues release)
     /\ trace r = map Invoke (firstn n requests)
     /\ (forall repos, outcome r = Returned repos -> n = length (issues release))
     /\ (forall e, outcome r = Thrown e ->
           exists before i after prss w,
             issues release = before ++ i :: after
             /\ n = S (length before)
             /\ tracker_pull_requests handle env before (services p) = (inr prss, w)
             /\ ((exists w', handle (getPRsFromJira env (id i)) w = (inl e, w'))
                 \/ (exists d w',
                       handle (getPRsFromJira env (id i)) w = (inr d, w')
                       /\ detail d = []
                       /\ e = property_of_undefined "pullRequests"))))
  /\ getReposFromRelease handle env None p
     = mkRun (Thrown (TypeError "Cannot read properties of undefined (reading 'issues')"))
             p [].
Proof.
  cbv zeta. split; [|reflexivity].
  unfold getReposFromRelease, get_issues. rewrite bind_ret.
  destruct (collect_loop_trace (issues release) [] p) as [n [Hn [Ht [Ho He]]]].
  exists n. unfold bind.
  destruct (for_index (issues release) [] (collect_issue_repos handle env) p)
    as [[repos|e] p1 t1]; cbn [outcome final trace ret] in *.
  - rewrite app_nil_r. split; [assumption|]. split; [assumption|].
    split; [|discriminate]. intros repos' _. now apply (Ho repos).
  - split; [assumption|]. split; [assumption|].
    split; [discriminate|]. intros e' [= <-]. now apply (He e).
Qed.

(** X2. The resolver returns the repository names of all pull requests of all
    issues in the order of their first appearance (issue by issue, pull
    request by pull request), each once: the de-duplication per issue does
    not change the result. *)
Theorem resolver_keeps_first_appearance_order
        (release : Release) (p : Process W) prss w' :
  tracker_pull_requests handle env (issues release) (services p) = (inr prss, w') ->
  outcome (getReposFromRelease handle env (Some release) p)
  = Returned (first_occurrences (flat_map (map repositoryName) prss)).
Proof.
  intros H. destruct (getReposFromRelease_run W handle env release p) as [_ Ho].
  rewrite H in Ho. destruct Ho as [Ho _]. rewrite Ho. f_equal.
  unfold repo_names. now rewrite uniq_flat_map_uniq, uniq_first_occurrences.
Qed.

(** *** The operators, in order *)

Lemma opened_app (a b : list Call) : opened (a ++ b) = opened a ++ opened b.
Proof.
  induction a as [|c a IH]; cbn; [reflexivity|].
  destruct c; cbn; now rewrite IH.
Qed.

Lemma pr_targets_app (a b : list Call) : pr_targets (a ++ b) = pr_targets a ++ pr_targets b.
Proof.
  induction a as [|c a IH]; cbn; [reflexivity|].
  destruct c; cbn; now rewrite IH.
Qed.

Lemma opened_operator_calls (cs : list Call) :
  opened (filter is_operator_call cs) = opened cs.
Proof.
  induction cs as [|c cs IH]; cbn; [reflexivity|].
  destruct c; cbn; now rewrite IH.
Qed.

Lemma pr_targets_operator_calls (cs : list Call) :
  pr_targets (filter is_operator_call cs) = pr_targets cs.
Proof.
  induction cs as [|c cs IH]; cbn; [reflexivity|].
  destruct c; cbn; now rewrite IH.
Qed.

Lemma opened_git_only (cs : list Call) :
  (forall c, In c cs -> exists d op, c = Git d op) -> opened cs = [].
Proof.
  induction cs as [|c cs IH]; intros H; cbn; [reflexivity|].
  destruct (H c (or_introl eq_refl)) as [d [op ->]].
  apply IH. intros c' Hc'. apply H. now right.
Qed.

Lemma steps_after_status_git (dir b : string) (status : StatusSummary) (c : Call) :
  In c (steps_after_status dir b status) -> exists d op, c = Git d op.
Proof.
  unfold steps_after_status. destruct (isClean status); cbn; intros H;
    repeat (destruct H as [<- | H]; [eauto|]); destruct H.
Qed.

Lemma opened_checkoutBranch (r b : string) (p : Process W) :
  opened (calls_of (trace (checkoutBranch handle env r b p))) = [REPO_BASE_PATH env +++ r].
Proof.
  pose proof (checkoutBranch_run W handle env r b p) as Hrun. cbv zeta in Hrun.
  unfold branch_sequence in Hrun.
  destruct (handle (SimpleGit (REPO_BASE_PATH env +++ r)) (services p)) as [[e|x] w1].
  { destruct Hrun as [_ [_ ->]]. reflexivity. }
  destruct (handle (Git (REPO_BASE_PATH env +++ r) Status) w1) as [[e|status] w2].
  { destruct Hrun as [_ [_ ->]]. reflexivity. }
  pose proof (perform_made_in_steps W handle
                (steps_after_status (REPO_BASE_PATH env +++ r) b status) w2) as Hin.
  destruct (perform handle (steps_after_status (REPO_BASE_PATH env +++ r) b status) w2)
    as [[res w3] made].
  destruct Hrun as [_ [_ ->]]. cbn in *. f_equal.
  apply opened_git_only. intros c Hc.
  apply (steps_after_status_git (REPO_BASE_PATH env +++ r) b status). now apply Hin.
Qed.

Lemma opened_branch_loop v (repos : list string) :
  forall p,
    opened (calls_of (trace (for_of repos (branch_repository handle env v) p)))
    = map (fun r => REPO_BASE_PATH env +++ r) (filter (Js.includes WHITELISTED_REPOS) repos).
Proof.
  induction repos as [|r repos IH]; intros p; [reflexivity|].
  rewrite for_of_cons by apply branch_repository_returns. cbn [trace filter].
  rewrite calls_of_app, opened_app, IH.
  destruct (Js.includes WHITELISTED_REPOS r) eqn:Hw.
  - rewrite branch_repository_accepted by assumption. cbn [trace calls_of].
    rewrite calls_of_app, opened_app, opened_checkoutBranch.
    destruct (outcome (checkoutBranch handle env r (releaseBranchName v) p)); reflexivity.
  - rewrite branch_repository_skipped by assumption. reflexivity.
Qed.

Lemma pr_targets_pr_loop v (repos : list string) :
  forall p,
    pr_targets (calls_of (trace (for_of repos (pr_repository handle env v) p)))
    = map pullrequests_url (filter (Js.includes WHITELISTED_REPOS) repos).
Proof.
  induction repos as [|r repos IH]; intros p; [reflexivity|].
  rewrite for_of_cons by apply pr_repository_returns. cbn [trace filter].
  rewrite calls_of_app, pr_targets_app, IH.
  destruct (Js.includes WHITELISTED_REPOS r) eqn:Hw.
  - rewrite pr_repository_accepted by assumption. cbn [trace calls_of pr_call pr_targets].
    rewrite whitelisted_url by now apply includes_In.
    destruct (outcome (createBitbucketPr handle env v r p)); reflexivity.
  - rewrite pr_repository_skipped by assumption. reflexivity.
Qed.

Lemma NoDup_map_injective {A B} (f : A -> B) (l : list A) :
  (forall x y, f x = f y -> x = y) -> NoDup l -> NoDup (map f l).
Proof.
  intros Hinj. induction 1 as [|a l Hin Hnd IH]; cbn; constructor; [|assumption].
  intros H. apply in_map_iff in H. destruct H as [x [Hfx Hx]].
  apply Hinj in Hfx. now subst.
Qed.

(** X3. Both operators work through the resolved repositories in the order the
    resolver returned them, and handle each accepted repository once: when
    the search and every detail request are answered, the working copies
    opened by the release_branch action, in order, are those of the
    whitelisted resolved repositories, and so are the endpoints the
    release_pr action posts to; neither list repeats an entry. *)
Theorem operators_follow_the_resolved_order
        v (p : Process W) release w1 prss w2 :
  handle (SearchJira (jira env) (release_jql v)) (services p) = (inr release, w1) ->
  tracker_pull_requests handle env (issues release) w1 = (inr prss, w2) ->
  let accepted := filter (Js.includes WHITELISTED_REPOS)
                         (first_occurrences (flat_map (map repositoryName) prss)) in
  let dirs := opened (calls_of (trace (createReleaseBranches handle env v p))) in
  let urls := pr_targets (calls_of (trace (createReleasePRs handle env v p))) in
  dirs = map (fun r => REPO_BASE_PATH env +++ r) accepted
  /\ urls = map pullrequests_url accepted
  /\ NoDup dirs /\ NoDup urls.
Proof.
  intros Hs Ht accepted dirs urls.
  assert (Hacc : accepted = filter (Js.includes WHITELISTED_REPOS) (Js.uniq (repo_names prss))).
  { unfold accepted, repo_names.
    now rewrite uniq_flat_map_uniq, uniq_first_occurrences. }
  assert (Hnd : NoDup accepted).
  { rewrite Hacc. apply NoDup_filter, uniq_NoDup. }
  destruct (createReleaseBranches_resolved W handle env v p release w1 prss w2 Hs Ht)
    as [t1 [Hops1 Hb]].
  destruct (createReleasePRs_resolved W handle env v p release w1 prss w2 Hs Ht)
    as [t2 [Hops2 Hp]].
  cbv zeta in Hb, Hp.
  assert (Hdirs : dirs = map (fun r => REPO_BASE_PATH env +++ r) accepted).
  { unfold dirs. rewrite Hb. cbn [trace].
    rewrite calls_of_app, opened_app, <- (opened_operator_calls (calls_of t1)).
    change (filter is_operator_call (calls_of t1)) with (operator_calls t1).
    rewrite Hops1, opened_branch_loop, Hacc. reflexivity. }
  assert (Hurls : urls = map pullrequests_url accepted).
  { unfold urls. rewrite Hp. cbn [trace].
    rewrite calls_of_app, pr_targets_app, <- (pr_targets_operator_calls (calls_of t2)).
    change (filter is_operator_call (calls_of t2)) with (operator_calls t2).
    rewrite Hops2, pr_targets_pr_loop, Hacc. reflexivity. }
  split; [exact Hdirs|]. split; [exact Hurls|]. split.
  - rewrite Hdirs. apply NoDup_map_injective; [|assumption].
    intros x y. apply append_inv_head.
  - rewrite Hurls. apply NoDup_map_injective; [|assumption].
    apply pullrequests_url_inj.
Qed.

(** *** The check action *)

Lemma map_m_link_key (links : list IssueLink) (p : Process W) :
  map_m link_key links p
  = match link_keys links with
    | Some ks => mkRun (Returned ks) p []
    | None => mkRun (Thrown (property_of_undefined "key")) p []
    end.
Proof.
  induction links as [|l links IH]; cbn [map_m link_keys]; [reflexivity|].
  assert (Hk : link_key (W := W) l p
               = match link_key_of l with
                 | Some k => mkRun (Returned k) p []
                 | None => mkRun (Thrown (property_of_undefined "key")) p []
                 end).
  { unfold link_key, link_key_of.
    destruct (inwardIssue l); [reflexivity|]. destruct (outwardIssue l); reflexivity. }
  unfold bind at 1. rewrite Hk.
  destruct (link_key_of l) as [k|]; cbn [outcome final trace]; [|reflexivity].
  unfold bind. rewrite IH.
  destruct (link_keys links); reflexivity.
Qed.

Lemma map_m_author_name (prs : list PullRequest) (p : Process W) :
  map_m author_name prs p
  = match author_names prs with
    | Some names => mkRun (Returned names) p []
    | None => mkRun (Thrown (property_of_undefined "name")) p []
    end.
Proof.
  induction prs as [|pr prs IH]; cbn [map_m author_names]; [reflexivity|].
  assert (Hk : author_name (W := W) pr p
               = match author pr with
                 | Some name => mkRun (Returned name) p []
                 | None => mkRun (Thrown (property_of_undefined "name")) p []
                 end).
  { unfold author_name. destruct (author pr); reflexivity. }
  unfold bind at 1. rewrite Hk.
  destruct (author pr) as [name|]; cbn [outcome final trace]; [|reflexivity].
  unfold bind. rewrite IH.
  destruct (author_names prs); reflexivity.
Qed.

Lemma row_of_shown (issue : Issue) (prs : list PullRequest) (authors linked : list string) :
  author_names prs = Some authors ->
  row_of issue prs authors linked = shown_row issue prs linked.
Proof.
  intros H. unfold row_of, shown_row, shown_authors. rewrite H. cbn.
  now rewrite !uniq_first_occurrences.
Qed.

Lemma add_issue_row_run (table : Table) (i : Issue) (p : Process W) :
  add_issue_row handle env table i p
  = match handle (getPRsFromJira env (id i)) (services p) with
    | (inl e, w1) =>
        mkRun (Thrown e) {| services := w1; exitCode := exitCode p |}
              [Invoke (getPRsFromJira env (id i))]
    | (inr d, w1) =>
        mkRun (match detail d with
               | [] => Thrown (property_of_undefined "pullRequests")
               | entry :: _ =>
                   match author_names (pullRequests entry) with
                   | None => Thrown (property_of_undefined "name")
                   | Some _ =>
                       match link_keys (issuelinks (fields i)) with
                       | None => Thrown (property_of_undefined "key")
                       | Some ks =>
                           Returned (Js.obj_set table (key i)
                                       (shown_row i (pullRequests entry) ks))
                       end
                   end
               end)
              {| services := w1; exitCode := exitCode p |}
              [Invoke (getPRsFromJira env (id i))]
    end.
Proof.
  unfold add_issue_row. cbv zeta. rewrite bind_call.
  destruct (handle (getPRsFromJira env (id i)) (services p)) as [[e|d] w1];
    [reflexivity|].
  unfold first_pullRequests, Js.at_index.
  destruct (detail d) as [|entry others]; [reflexivity|].
  cbn [nth_error]. rewrite bind_ret. unfold bind. rewrite map_m_author_name.
  destruct (author_names (pullRequests entry)) as [names|] eqn:Ha; [|reflexivity].
  cbn [outcome final trace]. rewrite map_m_link_key.
  destruct (link_keys (issuelinks (fields i))) as [ks|]; [|reflexivity].
  unfold ret. cbn [outcome final trace app]. now rewrite (row_of_shown i _ names ks Ha).
Qed.


Lemma tables_of_invocations (cs : list Call) : tables_of (map Invoke cs) = [].
Proof. induction cs as [|c cs IH]; [reflexivity | exact IH]. Qed.

Lemma calls_of_invocations (cs : list Call) : calls_of (map Invoke cs) = cs.
Proof. induction cs as [|c cs IH]; cbn; [reflexivity | now rewrite IH]. Qed.

Lemma detail_requests_are_reads (l : list Issue) :
  forall n,
    filter is_operator_call (firstn n (map (fun i => getPRsFromJira env (id i)) l)) = [].
Proof.
  induction l as [|i l IH]; intros [|n]; cbn; try reflexivity. apply IH.
Qed.

Lemma display_loop_trace (l : list Issue) :
  forall (table : Table) (p : Process W),
    exists n,
      n <= length l
      /\ trace (for_index l table (add_issue_row handle env) p)
         = map Invoke (firstn n (map (fun i => getPRsFromJira env (id i)) l)).
Proof.
  induction l as [|i l IH]; intros table p; cbn [for_index].
  - exists 0. cbn. auto.
  - unfold bind. rewrite add_issue_row_run.
    destruct (handle (getPRsFromJira env (id i)) (services p)) as [[e|d] w1].
    + exists 1. cbn. split; [lia | reflexivity].
    + cbn [outcome final trace].
      destruct (detail d) as [|entry others];
        [exists 1; cbn; split; [lia | reflexivity]|].
      destruct (author_names (pullRequests entry)) as [names|];
        [|exists 1; cbn; split; [lia | reflexivity]].
      destruct (link_keys (issuelinks (fields i))) as [ks|];
        [|exists 1; cbn; split; [lia | reflexivity]].
      destruct (IH (Js.obj_set table (key i) (shown_row i (pullRequests entry) ks))
                   {| services := w1; exitCode := exitCode p |}) as [n [Hn Ht]].
      exists (S n). cbn [length map firstn app trace]. split; [lia | now rewrite Ht].
Qed.


Lemma display_loop_bad_link (l : list Issue) (i : Issue) :
  In i l -> link_keys (issuelinks (fields i)) = None ->
  forall (table : Table) (p : Process W),
    exists e, outcome (for_index l table (add_issue_row handle env) p) = Thrown e.
Proof.
  intros Hin Hbad. induction l as [|j l IH]; [destruct Hin|].
  intros table p. cbn [for_index]. unfold bind. rewrite add_issue_row_run.
  destruct (handle (getPRsFromJira env (id j)) (services p)) as [[e|d] w1];
    [cbn; eauto|].
  cbn [outcome final trace].
  destruct (detail d) as [|entry others]; [cbn; eauto|].
  destruct (author_names (pullRequests entry)) as [names|]; [|cbn; eauto].
  destruct (link_keys (issuelinks (fields j))) as [ks|] eqn:Hj; [|cbn; eauto].
  destruct Hin as [-> | Hin]; [congruence|].
  destruct (IH Hin (Js.obj_set table (key j) (shown_row j (pullRequests entry) ks))
               {| services := w1; exitCode := exitCode p |}) as [e He].
  exists e. cbn [outcome]. exact He.
Qed.

Lemma displayReleaseDetails_after_search v (p : Process W) release w1 :
  handle (SearchJira (jira env) (release_jql v)) (services p) = (inr release, w1) ->
  let r := for_index (issues release) ([] : Table) (add_issue_row handle env)
                     {| services := w1; exitCode := exitCode p |} in
  displayReleaseDetails handle env v p
  = match outcome r with
    | Returned table =>
        mkRun (Returned tt) (final r)
              (Invoke (SearchJira (jira env) (release_jql v))
                 :: trace r ++ [ConsoleTable table])
    | Thrown e =>
        mkRun (Thrown e) (final r)
              (Invoke (SearchJira (jira env) (release_jql v)) :: trace r)
    end.
Proof.
  intros H r. unfold displayReleaseDetails. unfold bind at 1.
  rewrite (getJiraCardsFromRelease_resolves W handle env v p release w1 H).
  cbn [outcome final trace get_issues]. rewrite bind_ret. unfold bind. fold r.
  destruct r as [[table|e] p1 t1]; reflexivity.
Qed.








Lemma link_keys_none (links : list IssueLink) (l : IssueLink) :
  In l links -> link_key_of l = None -> link_keys links = None.
Proof.
  induction links as [|l' links IH]; intros Hin Hl; [destruct Hin|].
  cbn. destruct Hin as [-> | Hin].
  - now rewrite Hl.
  - rewrite (IH Hin Hl). now destruct (link_key_of l').
Qed.

(** X4. The check action never calls git or the hosting provider, and it
    prints its table only as the very last thing of a run that returns: a
    run that throws has printed no table. *)
Theorem check_reads_only_and_prints_last v (p : Process W) :
  let r := displayReleaseDetails handle env v p in
  operator_calls (trace r) = []
  /\ (outcome r = Returned tt ->
      exists before table, trace r = before ++ [ConsoleTable table] /\ tables_of before = [])
  /\ (forall e, outcome r = Thrown e -> tables_of (trace r) = []).
Proof.
  cbv zeta.
  destruct (handle (SearchJira (jira env) (release_jql v)) (services p))
    as [[e|release] w1] eqn:Hs.
  - destruct (search_failure_ends_in_type_error W handle env v p e w1 Hs) as [-> _].
    cbn [outcome trace]. split; [reflexivity|]. split; [discriminate|].
    intros; reflexivity.
  - rewrite (displayReleaseDetails_after_search v p release w1 Hs). cbv zeta.
    destruct (display_loop_trace (issues release) []
                {| services := w1; exitCode := exitCode p |}) as [n [_ Ht]].
    match goal with
    | |- context [outcome ?loop] =>
        assert (Ht' : trace loop
                      = map Invoke (firstn n (map (fun i => getPRsFromJira env (id i))
                                                  (issues release)))) by exact Ht;
        clear Ht; destruct loop as [[table|e] p1 t1]
    end;
      cbn [outcome final trace] in *; subst t1.
    + split; [|split; [|discriminate]].
      * unfold operator_calls. cbn [calls_of]. rewrite calls_of_app, calls_of_invocations.
        cbn. rewrite app_nil_r. apply detail_requests_are_reads.
      * intros _. eexists (_ :: _), table. split; [reflexivity|].
        cbn. apply tables_of_invocations.
    + split; [|split; [discriminate|]].
      * unfold operator_calls. cbn [calls_of]. rewrite calls_of_invocations.
        cbn. apply detail_requests_are_reads.
      * intros _ _. cbn. apply tables_of_invocations.
Qed.


(** X6. An issue link with neither an inward nor an outward issue makes the
    check action throw without printing a table, whichever issue of the
    release carries it. *)
Theorem link_without_issue_stops_the_check
        v (p : Process W) release w1 (i : Issue) (l : IssueLink) :
  handle (SearchJira (jira env) (release_jql v)) (services p) = (inr release, w1) ->
  In i (issues release) ->
  In l (issuelinks (fields i)) ->
  inwardIssue l = None ->
  outwardIssue l = None ->
  let r := displayReleaseDetails handle env v p in
  (exists e, outcome r = Thrown e) /\ tables_of (trace r) = [].
Proof.
  intros Hs Hi Hl Hin Hout. cbv zeta.
  assert (Hbad : link_keys (issuelinks (fields i)) = None).
  { apply (link_keys_none _ l Hl). unfold link_key_of. now rewrite Hin. }
  destruct (display_loop_bad_link (issues release) i Hi Hbad []
              {| services := w1; exitCode := exitCode p |}) as [e He].
  destruct (display_loop_trace (issues release) []
              {| services := w1; exitCode := exitCode p |}) as [n [_ Ht]].
  rewrite (displayReleaseDetails_after_search v p release w1 Hs). cbv zeta.
  rewrite He. cbn [outcome trace tables_of]. split; [now exists e|].
  rewrite Ht. apply tables_of_invocations.
Qed.

(** *** The actions as a whole *)

Lemma searches_app (a b : list Call) : searches (a ++ b) = searches a ++ searches b.
Proof.
  induction a as [|c a IH]; cbn; [reflexivity|].
  destruct c; cbn; now rewrite IH.
Qed.

Lemma searches_operator_calls (cs : list Call) :
  (forall c, In c cs -> is_operator_call c = true) -> searches cs = [].
Proof.
  induction cs as [|c cs IH]; intros H; cbn; [reflexivity|].
  pose proof (H c (or_introl eq_refl)) as Hc.
  destruct c; try discriminate Hc; apply IH; intros c' Hc'; apply H; now right.
Qed.

Lemma detail_requests_no_search (l : list Issue) :
  forall n, searches (firstn n (map (fun i => getPRsFromJira env (id i)) l)) = [].
Proof.
  induction l as [|i l IH]; intros [|n]; cbn; try reflexivity. apply IH.
Qed.

Lemma resolution_makes_no_search (jiraRes : option Release) (p : Process W) :
  searches (calls_of (trace (getReposFromRelease handle env jiraRes p))) = [].
Proof.
  destruct jiraRes as [release|]; [|reflexivity].
  unfold getReposFromRelease, get_issues. rewrite bind_ret.
  destruct (collect_loop_trace (issues release) [] p) as [n [_ [Ht _]]].
  unfold bind.
  destruct (for_index (issues release) [] (collect_issue_repos handle env) p)
    as [[repos|e] p1 t1]; cbn [outcome final trace ret] in *; subst t1;
    rewrite ?app_nil_r, calls_of_invocations; apply detail_requests_no_search.
Qed.

Lemma branch_loop_makes_no_search v (repos : list string) (p : Process W) :
  searches (calls_of (trace (for_of repos (branch_repository handle env v) p))) = [].
Proof.
  apply searches_operator_calls. intros c Hc. apply in_calls_of in Hc.
  apply branch_loop_calls in Hc. destruct Hc as [r [_ [_ Hc]]]. cbn in Hc.
  repeat (destruct Hc as [<- | Hc]; [reflexivity|]). destruct Hc.
Qed.

Lemma pr_loop_makes_no_search v (repos : list string) (p : Process W) :
  searches (calls_of (trace (for_of repos (pr_repository handle env v) p))) = [].
Proof.
  apply searches_operator_calls. intros c Hc. apply in_calls_of in Hc.
  apply pr_loop_calls in Hc. destruct Hc as [r [_ [_ ->]]]. reflexivity.
Qed.

Lemma search_is_searched_once v (p : Process W) :
  searches (calls_of (trace (getJiraCardsFromRelease handle env v p))) = [release_jql v].
Proof.
  destruct (handle (SearchJira (jira env) (release_jql v)) (services p))
    as [[e|release] w1] eqn:H.
  - now rewrite (getJiraCardsFromRelease_rejects W handle env v p e w1 H).
  - now rewrite (getJiraCardsFromRelease_resolves W handle env v p release w1 H).
Qed.

Lemma operator_entry_searches_once v (p : Process W) (loop : list string -> M W unit) :
  (forall repos q, searches (calls_of (trace (loop repos q))) = []) ->
  searches (calls_of (trace ((jiraRes <- getJiraCardsFromRelease handle env v ;;
                              releaseRepos <- getReposFromRelease handle env jiraRes ;;
                              loop releaseRepos) p)))
  = [release_jql v].
Proof.
  intros Hloop. unfold bind.
  pose proof (search_is_searched_once v p) as H1.
  destruct (getJiraCardsFromRelease handle env v p) as [[jiraRes|e] p1 t1];
    cbn [outcome final trace] in *; [|exact H1].
  pose proof (resolution_makes_no_search jiraRes p1) as H2.
  destruct (getReposFromRelease handle env jiraRes p1) as [[repos|e] p2 t2];
    cbn [outcome final trace] in *.
  - now rewrite !calls_of_app, !searches_app, H1, H2, Hloop.
  - now rewrite !calls_of_app, !searches_app, H1, H2.
Qed.

Lemma check_searches_once v (p : Process W) :
  searches (calls_of (trace (displayReleaseDetails handle env v p))) = [release_jql v].
Proof.
  destruct (handle (SearchJira (jira env) (release_jql v)) (services p))
    as [[e|release] w1] eqn:Hs.
  - destruct (search_failure_ends_in_type_error W handle env v p e w1 Hs) as [-> _].
    reflexivity.
  - rewrite (displayReleaseDetails_after_search v p release w1 Hs). cbv zeta.
    destruct (display_loop_trace (issues release) []
                {| services := w1; exitCode := exitCode p |}) as [n [_ Ht]].
    match goal with
    | |- context [outcome ?loop] =>
        assert (Ht' : trace loop
                      = map Invoke (firstn n (map (fun i => getPRsFromJira env (id i))
                                                  (issues release)))) by exact Ht;
        clear Ht; destruct loop as [[table|e] p1 t1]
    end;
      cbn [outcome final trace calls_of searches] in *; subst t1; f_equal;
      rewrite ?calls_of_app, ?searches_app, calls_of_invocations,
        detail_requests_no_search; reflexivity.
Qed.

Lemma release_branch_searches_once v (p : Process W) :
  searches (calls_of (trace (createReleaseBranches handle env v p))) = [release_jql v].
Proof.
  exact (operator_entry_searches_once v p
           (fun repos => for_of repos (branch_repository handle env v))
           (fun repos q => branch_loop_makes_no_search v repos q)).
Qed.

Lemma release_pr_searches_once v (p : Process W) :
  searches (calls_of (trace (createReleasePRs handle env v p))) = [release_jql v].
Proof.
  exact (operator_entry_searches_once v p
           (fun repos => for_of repos (pr_repository handle env v))
           (fun repos q => pr_loop_makes_no_search v repos q)).
Qed.

(** X7. Every run with a valid action queries the tracker's search endpoint
    exactly once, with the release of the command line in the JQL, whatever
    the services answer; a run with an invalid action never queries it. *)
Theorem every_action_searches_exactly_once (argv : list string) (p : Process W) :
  searches (calls_of (trace (main handle env argv p)))
  = if Js.includes_opt RELEASE_ACTIONS (Js.at_index argv 2)
    then [release_jql (Js.at_index argv 3)]
    else [].
Proof.
  unfold main.
  destruct (Js.includes_opt RELEASE_ACTIONS (Js.at_index argv 2)) eqn:Hvalid;
    cbn [negb]; [|reflexivity].
  destruct (Js.at_index argv 2) as [action|]; [|discriminate Hvalid].
  unfold Js.includes_opt, Js.includes, RELEASE_ACTIONS in Hvalid.
  cbn [existsb] in Hvalid.
  destruct (String.eqb action "check"); [apply check_searches_once|].
  destruct (String.eqb action "release_branch"); [apply release_branch_searches_once|].
  destruct (String.eqb action "release_pr"); [apply release_pr_searches_once|].
  discriminate Hvalid.
Qed.

(** X8. A release without issues gives the operators nothing to do: after the
    search, the release_branch and release_pr actions return without
    another event, and the check action prints an empty table. *)
Theorem release_without_issues_is_a_no_op v (p : Process W) release w1 :
  handle (SearchJira (jira env) (release_jql v)) (services p) = (inr release, w1) ->
  issues release = [] ->
  let searched := {| services := w1; exitCode := exitCode p |} in
  let search := Invoke (SearchJira (jira env) (release_jql v)) in
  createReleaseBranches handle env v p = mkRun (Returned tt) searched [search]
  /\ createReleasePRs handle env v p = mkRun (Returned tt) searched [search]
  /\ displayReleaseDetails handle env v p
     = mkRun (Returned tt) searched [search; ConsoleTable []].
Proof.
  intros Hs Hnil searched search.
  pose proof (getJiraCardsFromRelease_resolves W handle env v p release w1 Hs) as Hcards.
  assert (Hres : getReposFromRelease handle env (Some release) searched
                 = mkRun (Returned []) searched []).
  { unfold getReposFromRelease, get_issues. rewrite Hnil. reflexivity. }
  split; [|split].
  - unfold createReleaseBranches. unfold bind at 1. rewrite Hcards.
    cbn [outcome final trace]. unfold bind. fold searched. rewrite Hres. reflexivity.
  - unfold createReleasePRs. unfold bind at 1. rewrite Hcards.
    cbn [outcome final trace]. unfold bind. fold searched. rewrite Hres. reflexivity.
  - rewrite (displayReleaseDetails_after_search v p release w1 Hs).
    rewrite Hnil. reflexivity.
Qed.

Lemma entry_thrown_before_operators v (p : Process W) (loop : list string -> M W unit) e :
  (forall repos q, outcome (loop repos q) = Returned tt) ->
  let r := (jiraRes <- getJiraCardsFromRelease handle env v ;;
            releaseRepos <- getReposFromRelease handle env jiraRes ;;
            loop releaseRepos) p in
  outcome r = Thrown e -> operator_calls (trace r) = [].
Proof.
  intros Hloop. cbv zeta. unfold bind.
  pose proof (getJiraCardsFromRelease_reads W handle env v p) as H1.
  destruct (getJiraCardsFromRelease handle env v p) as [[jiraRes|e1] p1 t1];
    cbn [outcome final trace] in *; [|intros _; exact H1].
  pose proof (getReposFromRelease_reads W handle env jiraRes p1) as H2.
  destruct (getReposFromRelease handle env jiraRes p1) as [[repos|e2] p2 t2];
    cbn [outcome final trace] in *.
  - rewrite Hloop. discriminate.
  - intros _. now rewrite operator_calls_app, H1, H2.
Qed.

(** X9. An operator action that ends with an error has not touched any
    repository: when release_branch or release_pr throws, its trace holds no
    git call and no request to the hosting provider.  (What the operators
    themselves throw never ends the action.) *)
Theorem rejected_action_touched_no_repository v (p : Process W) (e : Exn) :
  (outcome (createReleaseBranches handle env v p) = Thrown e ->
   operator_calls (trace (createReleaseBranches handle env v p)) = [])
  /\ (outcome (createReleasePRs handle env v p) = Thrown e ->
      operator_calls (trace (createReleasePRs handle env v p)) = []).
Proof.
  split.
  - exact (entry_thrown_before_operators v p
             (fun repos => for_of repos (branch_repository handle env v)) e
             (fun repos q => for_of_returns W string (branch_repository handle env v)
                               (branch_repository_returns W handle env v) repos q)).
  - exact (entry_thrown_before_operators v p
             (fun repos => for_of repos (pr_repository handle env v)) e
             (fun repos q => for_of_returns W string (pr_repository handle env v)
                               (pr_repository_returns W handle env v) repos q)).
Qed.

(** *** The Branch Operator, step by step *)

Lemma perform_stops_at_failure (steps : list Call) :
  forall w,
    match perform handle steps w with
    | (res, _, made) =>
        (res = None /\ made = steps)
        \/ (exists pre c post, steps = pre ++ c :: post /\ made = pre ++ [c])
    end.
Proof.
  induction steps as [|s steps IH]; intros w; cbn; [auto|].
  destruct (handle s w) as [[e|x] w1].
  - right. exists [], s, steps. auto.
  - specialize (IH w1). destruct (perform handle steps w1) as [[res w2] made].
    destruct IH as [[-> ->] | [pre [c [post [-> ->]]]]]; [auto|].
    right. exists (s :: pre), c, post. auto.
Qed.

Lemma prefix_reaching_the_last_step (steps pre post : list Call) (c x : Call) :
  NoDup steps ->
  steps = pre ++ c :: post ->
  (exists init, steps = init ++ [x]) ->
  In x (pre ++ [c]) ->
  post = [].
Proof.
  intros Hnd Hsplit [init Hlast] Hin.
  destruct post as [|y post] using rev_ind; [reflexivity|]. exfalso.
  clear IHpost.
  assert (Hx : y = x).
  { rewrite Hsplit in Hlast.
    change (pre ++ c :: post ++ [y]) with (pre ++ (c :: post) ++ [y]) in Hlast.
    rewrite app_assoc in Hlast. now apply app_inj_tail in Hlast. }
  subst y. rewrite Hsplit in Hnd.
  change (pre ++ c :: post ++ [x]) with (pre ++ [c] ++ post ++ [x]) in Hnd.
  rewrite app_assoc in Hnd.
  assert (Hdis : forall a, In a (pre ++ [c]) -> ~ In a (post ++ [x])).
  { clear -Hnd. induction (pre ++ [c]) as [|a l IH]; [intros a []|].
    cbn in Hnd. inversion Hnd as [|? ? Hnotin Hnd']; subst.
    intros a' [-> | Ha'].
    - intros Hp. apply Hnotin. apply in_app_iff. now right.
    - now apply IH. }
  apply (Hdis x Hin). apply in_app_iff. right. now left.
Qed.

Lemma steps_after_status_NoDup (dir b : string) (status : StatusSummary) :
  NoDup (steps_after_status dir b status).
Proof.
  unfold steps_after_status. destruct (isClean status); cbn;
    repeat (constructor; [cbn; intuition discriminate|]); constructor.
Qed.

(** X10. The Branch Operator pushes only a branch it has just cut from a
    freshly pulled [dev]: if the push was attempted at all, then the working
    copy was opened and its status read, both with success, and the calls of
    the run are exactly: open, status, [stash] if and only if that status
    was not clean, fetch, checkout of [dev], pull, creation of the local
    branch, and the push. *)
Theorem push_only_after_every_earlier_step (r b : string) (p : Process W) :
  let dir := REPO_BASE_PATH env +++ r in
  let calls := calls_of (trace (checkoutBranch handle env r b p)) in
  In (Git dir (Push "origin" b [])) calls ->
  exists (x : unit) (w1 : W) (status : StatusSummary) (w2 : W),
    handle (SimpleGit dir) (services p) = (inr x, w1)
    /\ handle (Git dir Status) w1 = (inr status, w2)
    /\ calls = [SimpleGit dir; Git dir Status]
                 ++ (if isClean status then [] else [Git dir Stash])
                 ++ [ Git dir Fetch; Git dir (Checkout "dev"); Git dir Pull;
                      Git dir (CheckoutLocalBranch b); Git dir (Push "origin" b []) ].
Proof.
  intros dir calls. unfold calls.
  pose proof (checkoutBranch_run W handle env r b p) as Hrun. cbv zeta in Hrun.
  fold dir in Hrun. unfold branch_sequence in Hrun.
  destruct (handle (SimpleGit dir) (services p)) as [[e|x] w1] eqn:Hopen.
  { destruct Hrun as [_ [_ ->]]. intros [H | []]. discriminate. }
  destruct (handle (Git dir Status) w1) as [[e|status] w2] eqn:Hstatus.
  { destruct Hrun as [_ [_ ->]]. intros [H | [H | []]]; discriminate. }
  pose proof (perform_stops_at_failure (steps_after_status dir b status) w2) as Hstop.
  destruct (perform handle (steps_after_status dir b status) w2) as [[res w3] made].
  destruct Hrun as [_ [_ ->]].
  intros [H | [H | Hin]]; try discriminate.
  exists x, w1, status, w2. split; [reflexivity|]. split; [exact Hstatus|].
  destruct Hstop as [[_ ->] | [pre [c [post [Hsteps ->]]]]]; [reflexivity|].
  assert (Hpost : post = []).
  { apply (prefix_reaching_the_last_step (steps_after_status dir b status) pre post c
             (Git dir (Push "origin" b []))); try assumption.
    - apply steps_after_status_NoDup.
    - unfold steps_after_status.
      exists ((if isClean status then [] else [Git dir Stash])
                ++ [ Git dir Fetch; Git dir (Checkout "dev"); Git dir Pull;
                     Git dir (CheckoutLocalBranch b) ]).
      now rewrite <- app_assoc. }
  subst post. cbn [app]. do 2 f_equal.
  fold (steps_after_status dir b status). now rewrite Hsteps.
Qed.

Lemma traces_only_cons (c : Call) (m : M W unit) (cs : list Call) :
  traces_only handle m cs -> traces_only handle (bind (call handle c) (fun _ => m)) (c :: cs).
Proof.
  intros Hm p. rewrite bind_call. cbn [perform].
  destruct (handle c (services p)) as [[e|x] w1]; [reflexivity|].
  specialize (Hm {| services := w1; exitCode := exitCode p |}). cbn [services] in Hm.
  destruct (perform handle cs w1) as [[res w2] made]. cbn [trace snd map] in *.
  now rewrite Hm.
Qed.

Lemma traces_only_push (d remote b : string) (options : list string) :
  traces_only handle (call handle (Git d (Push remote b options)))
              [Git d (Push remote b options)].
Proof.
  intros p. unfold call. cbn [perform].
  destruct (handle (Git d (Push remote b options)) (services p)) as [[e|x] w1];
    reflexivity.
Qed.

Lemma checkoutBranch_trace_after_status (r b : string) (p : Process W) x w1 status w2 :
  let dir := REPO_BASE_PATH env +++ r in
  handle (SimpleGit dir) (services p) = (inr x, w1) ->
  handle (Git dir Status) w1 = (inr status, w2) ->
  trace (checkoutBranch handle env r b p)
  = [Invoke (SimpleGit dir); Invoke (Git dir Status)]
      ++ (if isClean status then []
          else [ConsoleLog [Str "Stashing uncommitted changes..."]])
      ++ map Invoke (snd (perform handle (steps_after_status dir b status) w2)).
Proof.
  intros dir Hopen Hstatus. unfold checkoutBranch. cbv zeta. fold dir.
  rewrite bind_call, Hopen. cbn [trace services exitCode].
  unfold stashChangesIfNeeded. rewrite bind_assoc, bind_call.
  cbn [services exitCode]. rewrite Hstatus. cbn [trace app]. do 2 f_equal.
  assert (Hrest : traces_only handle
            (call handle (Git dir Fetch) ;;
             call handle (Git dir (Checkout "dev")) ;;
             call handle (Git dir Pull) ;;
             call handle (Git dir (CheckoutLocalBranch b)) ;;
             call handle (Git dir (Push "origin" b [])))
            [ Git dir Fetch; Git dir (Checkout "dev"); Git dir Pull;
              Git dir (CheckoutLocalBranch b); Git dir (Push "origin" b []) ]).
  { repeat apply traces_only_cons. apply traces_only_push. }
  unfold steps_after_status. destruct (isClean status); cbn [negb app].
  - rewrite bind_ret. exact (Hrest {| services := w2; exitCode := exitCode p |}).
  - rewrite bind_assoc. unfold console_log. rewrite bind_emit. cbn [trace]. f_equal.
    exact (traces_only_cons (Git dir Stash) _ _ Hrest
             {| services := w2; exitCode := exitCode p |}).
Qed.

Lemma perform_starts (c : Call) (cs : list Call) (w : W) :
  exists rest, snd (perform handle (c :: cs) w) = c :: rest.
Proof.
  cbn [perform]. destruct (handle c w) as [[e|x] w1]; [eexists; reflexivity|].
  destruct (perform handle cs w1) as [[res w2] made]. eexists; reflexivity.
Qed.

Lemma in_invocations (ev : Event) (cs : list Call) :
  In ev (map Invoke cs) -> exists c, ev = Invoke c /\ In c cs.
Proof.
  intros H. apply in_map_iff in H. destruct H as [c [<- Hc]]. eauto.
Qed.

(** X11. Uncommitted changes are stashed, and only they: once the working copy
    is open and its status read, the Branch Operator calls [stash] exactly
    when the status is not clean, and it announces the stash on the console
    exactly then, right after the status query and right before the stash. *)
Theorem stash_exactly_when_not_clean (r b : string) (p : Process W) x w1 status w2 :
  let dir := REPO_BASE_PATH env +++ r in
  let run := checkoutBranch handle env r b p in
  let notice := ConsoleLog [Str "Stashing uncommitted changes..."] in
  handle (SimpleGit dir) (services p) = (inr x, w1) ->
  handle (Git dir Status) w1 = (inr status, w2) ->
  (In (Invoke (Git dir Stash)) (trace run) <-> isClean status = false)
  /\ (In notice (trace run) <-> isClean status = false)
  /\ (isClean status = false ->
      exists rest,
        trace run = Invoke (SimpleGit dir) :: Invoke (Git dir Status)
                      :: notice :: Invoke (Git dir Stash) :: rest).
Proof.
  intros dir run notice Hopen Hstatus.
  pose proof (checkoutBranch_trace_after_status r b p x w1 status w2 Hopen Hstatus) as Ht.
  fold dir run in Ht. rewrite Ht. clear Ht.
  pose proof (perform_made_in_steps W handle (steps_after_status dir b status) w2) as Hin.
  unfold steps_after_status in *.
  destruct (isClean status); cbn [app] in *.
  - split; [|split]; [split | split |]; try discriminate.
    + intros [H | [H | H]]; try discriminate.
      apply in_invocations in H. destruct H as [c [Hc Hmade]]. injection Hc as <-.
      apply Hin in Hmade. cbn in Hmade.
      repeat (destruct Hmade as [Hmade | Hmade]; [discriminate|]). destruct Hmade.
    + intros [H | [H | H]]; try discriminate.
      apply in_invocations in H. destruct H as [c [Hc _]]. discriminate.
  - destruct (perform_starts (Git dir Stash)
                [ Git dir Fetch; Git dir (Checkout "dev"); Git dir Pull;
                  Git dir (CheckoutLocalBranch b); Git dir (Push "origin" b []) ] w2)
      as [rest Hrest].
    rewrite Hrest. cbn [map In].
    split; [|split]; [tauto | tauto | eauto].
Qed.

(** *** The Pull Request Operator's endpoint *)

Lemma getSubstitution_plain (matched before after template : string) :
  has_dollar template = false ->
  Js.getSubstitution matched before after template = template.
Proof.
  induction template as [|c t IH]; [reflexivity|].
  cbn [has_dollar]. intros H. apply orb_false_iff in H. destruct H as [Hc Ht].
  destruct t as [|d rest]; [reflexivity|].
  cbn [Js.getSubstitution]. rewrite Hc. f_equal. now apply IH.
Qed.

Lemma replace_slug (repo : string) :
  Js.replace BITBUCKET_API_URL "REPO_SLUG" repo
  = "https://api.bitbucket.org/2.0/repositories/starlinglabs/"
      +++ Js.getSubstitution "REPO_SLUG"
            "https://api.bitbucket.org/2.0/repositories/starlinglabs/" "/" repo
      +++ "/".
Proof. reflexivity. Qed.

(** X12. For every repository name without a [$] the Pull Request Operator
    posts to [.../repositories/starlinglabs/<name>/pullrequests], with the
    release's request body and the configured credentials, and does nothing
    else; the name is put into the URL unchanged. *)
Theorem pr_endpoint_of_a_plain_name v (repo : string) (p : Process W) :
  has_dollar repo = false ->
  trace (createBitbucketPr handle env v repo p)
  = [Invoke (AxiosPost (pullrequests_url repo)
                       (BITBUCKET_API_CREATE_PR_REQUEST_DATA v)
                       {| auth_username := BITBUCKET_USERNAME env;
                          auth_password := BITBUCKET_PASSWORD env |})].
Proof.
  intros H. rewrite createBitbucketPr_trace. unfold pr_call.
  rewrite replace_slug, getSubstitution_plain by assumption.
  unfold pullrequests_url. now rewrite !append_assoc.
Qed.

(** *** What a success notice means *)

Lemma for_of_trace_iteration {X} (body : X -> M W unit) :
  (forall x q, outcome (body x q) = Returned tt) ->
  forall l p ev,
    In ev (trace (for_of l body p)) ->
    exists x q,
      In x l /\ In ev (trace (body x q))
      /\ (forall ev', In ev' (trace (body x q)) -> In ev' (trace (for_of l body p))).
Proof.
  intros Hret. induction l as [|x l IH]; intros p ev; [intros []|].
  rewrite for_of_cons by apply Hret. cbn [trace]. rewrite in_app_iff.
  intros [H | H].
  - exists x, p. split; [now left|]. split; [assumption|].
    intros ev' Hev'. apply in_app_iff. now left.
  - destruct (IH _ _ H) as [y [q [Hy [Hev Hincl]]]].
    exists y, q. split; [now right|]. split; [assumption|].
    intros ev' Hev'. apply in_app_iff. right. now apply Hincl.
Qed.

Lemma checkoutBranch_events (r b : string) (p : Process W) (ev : Event) :
  In ev (trace (checkoutBranch handle env r b p)) ->
  (exists c, ev = Invoke c) \/ ev = ConsoleLog [Str "Stashing uncommitted changes..."].
Proof.
  destruct (handle (SimpleGit (REPO_BASE_PATH env +++ r)) (services p))
    as [[e|x] w1] eqn:Hopen.
  { unfold checkoutBranch. cbv zeta. rewrite bind_call, Hopen.
    intros [<- | []]. eauto. }
  destruct (handle (Git (REPO_BASE_PATH env +++ r) Status) w1) as [[e|status] w2] eqn:Hst.
  { unfold checkoutBranch, stashChangesIfNeeded. cbv zeta.
    rewrite bind_call, Hopen. cbn [trace services exitCode].
    rewrite bind_assoc, bind_call. cbn [services exitCode]. rewrite Hst.
    intros [<- | [<- | []]]; eauto. }
  rewrite (checkoutBranch_trace_after_status r b p x w1 status w2 Hopen Hst).
  intros [<- | [<- | H]]; eauto. cbn [app] in H.
  apply in_app_iff in H. destruct H as [H | H].
  - destruct (isClean status); cbn in H; intuition (subst; auto).
  - apply in_invocations in H. destruct H as [c [-> _]]. eauto.
Qed.

Lemma checkoutBranch_returned_pushed (r b : string) (p : Process W) :
  outcome (checkoutBranch handle env r b p) = Returned tt ->
  In (Invoke (Git (REPO_BASE_PATH env +++ r) (Push "origin" b [])))
     (trace (checkoutBranch handle env r b p)).
Proof.
  intros Hret. apply in_calls_of.
  pose proof (checkoutBranch_run W handle env r b p) as Hrun. cbv zeta in Hrun.
  unfold branch_sequence in Hrun.
  destruct (handle (SimpleGit (REPO_BASE_PATH env +++ r)) (services p)) as [[e|x] w1].
  { destruct Hrun as [Ho _]. rewrite Ho in Hret. discriminate. }
  destruct (handle (Git (REPO_BASE_PATH env +++ r) Status) w1) as [[e|status] w2].
  { destruct Hrun as [Ho _]. rewrite Ho in Hret. discriminate. }
  destruct (perform handle (steps_after_status (REPO_BASE_PATH env +++ r) b status) w2)
    as [[res w3] made] eqn:Hp.
  destruct Hrun as [Ho [_ ->]]. rewrite Ho in Hret.
  destruct res as [e|]; [discriminate|].
  apply (perform_all_made W handle) in Hp. subst made.
  right. right. unfold steps_after_status. apply in_app_iff. right.
  cbn. tauto.
Qed.

Lemma branch_success_notice_inj (r r' : string) :
  branch_success_notice r = branch_success_notice r' -> r = r'.
Proof.
  unfold branch_success_notice. intros H. injection H as H.
  now apply append_inv_tail in H.
Qed.

Lemma branch_repository_success v (x r : string) (q : Process W) :
  In (ConsoleLog [branch_success_notice r]) (trace (branch_repository handle env v x q)) ->
  x = r
  /\ In x WHITELISTED_REPOS
  /\ In (Invoke (Git (REPO_BASE_PATH env +++ x) (Push "origin" (releaseBranchName v) [])))
        (trace (branch_repository handle env v x q)).
Proof.
  destruct (Js.includes WHITELISTED_REPOS x) eqn:Hw.
  - rewrite branch_repository_accepted by assumption. cbn [trace].
    intros [H | H]; [discriminate H|].
    apply in_app_iff in H. destruct H as [H | H].
    + apply checkoutBranch_events in H. destruct H as [[c H] | H]; discriminate H.
    + destruct H as [H | [H | []]]; [|discriminate H].
      destruct (outcome (checkoutBranch handle env x (releaseBranchName v) q))
        as [[]|e] eqn:Ho; [|discriminate H].
      cbn [branch_result_notice] in H.
      assert (Hx : x = r) by (apply branch_success_notice_inj; congruence).
      clear H. split; [assumption|].
      split; [now apply includes_In|].
      right. apply in_app_iff. left. now apply checkoutBranch_returned_pushed.
  - rewrite branch_repository_skipped by assumption.
    intros [H | [H | []]]; discriminate H.
Qed.

(** X13. The release_branch action reports success for a repository only
    after it has pushed that repository's release branch: wherever the
    success notice for [r] appears in a run, [r] is on the whitelist and the
    push of [release/<version>] to [origin] from [r]'s working copy is in
    the same run. *)
Theorem success_notice_only_after_the_push v (p : Process W) (r : string) :
  let t := trace (createReleaseBranches handle env v p) in
  In (ConsoleLog [branch_success_notice r]) t ->
  In r WHITELISTED_REPOS
  /\ In (Invoke (Git (REPO_BASE_PATH env +++ r) (Push "origin" (releaseBranchName v) []))) t.
Proof.
  cbv zeta. unfold createReleaseBranches, bind.
  assert (Hsearch : forall ev, In ev (trace (getJiraCardsFromRelease handle env v p)) ->
                      ev <> ConsoleLog [branch_success_notice r]).
  { intros ev Hev.
    destruct (handle (SearchJira (jira env) (release_jql v)) (services p))
      as [[e|release] w1] eqn:H.
    - rewrite (getJiraCardsFromRelease_rejects W handle env v p e w1 H) in Hev.
      destruct Hev as [<- | [<- | []]]; discriminate.
    - rewrite (getJiraCardsFromRelease_resolves W handle env v p release w1 H) in Hev.
      destruct Hev as [<- | []]; discriminate. }
  destruct (getJiraCardsFromRelease handle env v p) as [[jiraRes|e] p1 t1];
    cbn [outcome final trace] in *.
  2:{ intros H. now apply Hsearch in H. }
  assert (Hres : forall ev, In ev (trace (getReposFromRelease handle env jiraRes p1)) ->
                   exists c, ev = Invoke c).
  { intros ev Hev. destruct jiraRes as [release|]; [|destruct Hev].
    unfold getReposFromRelease, get_issues in Hev. rewrite bind_ret in Hev.
    destruct (collect_loop_trace (issues release) [] p1) as [n [_ [Ht _]]].
    unfold bind in Hev.
    destruct (for_index (issues release) [] (collect_issue_repos handle env) p1)
      as [[repos|e] p2 t2]; cbn [outcome final trace ret] in *; subst t2;
      rewrite ?app_nil_r in Hev; apply in_invocations in Hev;
      destruct Hev as [c [-> _]]; eauto. }
  destruct (getReposFromRelease handle env jiraRes p1) as [[repos|e] p2 t2];
    cbn [outcome final trace] in *.
  2:{ intros H. apply in_app_iff in H. destruct H as [H | H].
      - now apply Hsearch in H.
      - apply Hres in H. destruct H as [c H]. discriminate H. }
  intros H. apply in_app_iff in H. destruct H as [H | H]; [now apply Hsearch in H|].
  apply in_app_iff in H. destruct H as [H | H].
  { apply Hres in H. destruct H as [c H]. discriminate H. }
  apply (for_of_trace_iteration (branch_repository handle env v)
           (branch_repository_returns W handle env v)) in H.
  destruct H as [x [q [_ [Hev Hincl]]]].
  apply branch_repository_success in Hev. destruct Hev as [-> [Hw Hpush]].
  split; [assumption|].
  apply in_app_iff. right. apply in_app_iff. right. now apply Hincl.
Qed.

End Further.

(* ------------------------------------------------------------------ *)
(** ** The further properties on the concrete services *)

Lemma resolver_keeps_first_appearance_order_witness :
  outcome (getReposFromRelease (Scenario.handle Scenario.no_fault) Scenario.env
             (Some Scenario.release_2_0_0) Scenario.searched)
  = Returned (first_occurrences
                (flat_map (map repositoryName) [Scenario.prsX; Scenario.prsY])).
Proof.
  refine (resolver_keeps_first_appearance_order
            _ (Scenario.handle Scenario.no_fault) Scenario.env
            Scenario.release_2_0_0 Scenario.searched [Scenario.prsX; Scenario.prsY] _ _).
  reflexivity.
Defined.

Lemma operators_follow_the_resolved_order_witness :
  let h := Scenario.handle (Scenario.pull_fails_in "developer-api") in
  let accepted := filter (Js.includes WHITELISTED_REPOS)
                         (first_occurrences
                            (flat_map (map repositoryName) [Scenario.prsX; Scenario.prsY])) in
  let dirs := opened (calls_of (trace (createReleaseBranches h Scenario.env (Some "2.0.0")
                                         Scenario.start))) in
  let urls := pr_targets (calls_of (trace (createReleasePRs h Scenario.env (Some "2.0.0")
                                             Scenario.start))) in
  dirs = map (fun r => REPO_BASE_PATH Scenario.env +++ r) accepted
  /\ urls = map pullrequests_url accepted
  /\ NoDup dirs /\ NoDup urls.
Proof.
  refine (operators_follow_the_resolved_order
            _ (Scenario.handle (Scenario.pull_fails_in "developer-api")) Scenario.env
            (Some "2.0.0") Scenario.start Scenario.release_2_0_0 _
            [Scenario.prsX; Scenario.prsY] _ _ _).
  - reflexivity.
  - reflexivity.
Defined.


Lemma link_without_issue_stops_the_check_witness :
  let r := displayReleaseDetails (Scenario.handle_for Scenario.release_with_bad_link)
             Scenario.env (Some "2.0.0") Scenario.start in
  (exists e, outcome r = Thrown e) /\ tables_of (trace r) = [].
Proof.
  refine (link_without_issue_stops_the_check
            _ (Scenario.handle_for Scenario.release_with_bad_link) Scenario.env
            (Some "2.0.0") Scenario.start Scenario.release_with_bad_link _
            Scenario.issueB {| inwardIssue := None; outwardIssue := None |}
            _ _ _ _ _).
  - reflexivity.
  - cbn. right. left. reflexivity.
  - cbn. right. left. reflexivity.
  - reflexivity.
  - reflexivity.
Defined.

Lemma release_without_issues_is_a_no_op_witness :
  let h := Scenario.handle_for Scenario.release_without_issues in
  let search := Invoke Scenario.search in
  createReleaseBranches h Scenario.env (Some "2.0.0") Scenario.start
  = mkRun (Returned tt) Scenario.searched [search]
  /\ createReleasePRs h Scenario.env (Some "2.0.0") Scenario.start
     = mkRun (Returned tt) Scenario.searched [search]
  /\ displayReleaseDetails h Scenario.env (Some "2.0.0") Scenario.start
     = mkRun (Returned tt) Scenario.searched [search; ConsoleTable []].
Proof.
  refine (release_without_issues_is_a_no_op
            _ (Scenario.handle_for Scenario.release_without_issues) Scenario.env
            (Some "2.0.0") Scenario.start Scenario.release_without_issues _ _ _).
  - reflexivity.
  - reflexivity.
Defined.

Lemma push_only_after_every_earlier_step_witness :
  let h := Scenario.handle Scenario.no_fault in
  let dir := REPO_BASE_PATH Scenario.env +++ "sub9-api" in
  let b := "release/2.0.0" in
  exists (x : unit) (w1 : Scenario.World) (status : StatusSummary) (w2 : Scenario.World),
    h (SimpleGit dir) (services Scenario.start) = (inr x, w1)
    /\ h (Git dir Status) w1 = (inr status, w2)
    /\ calls_of (trace (checkoutBranch h Scenario.env "sub9-api" b Scenario.start))
       = [SimpleGit dir; Git dir Status]
           ++ (if isClean status then [] else [Git dir Stash])
           ++ [ Git dir Fetch; Git dir (Checkout "dev"); Git dir Pull;
                Git dir (CheckoutLocalBranch b); Git dir (Push "origin" b []) ].
Proof.
  refine (push_only_after_every_earlier_step
            _ (Scenario.handle Scenario.no_fault) Scenario.env
            "sub9-api" "release/2.0.0" Scenario.start _).
  vm_compute. do 7 right. left. reflexivity.
Defined.

Lemma stash_exactly_when_not_clean_witness :
  let h := Scenario.handle (Scenario.pull_fails_in "sub9-api") in
  let dir := REPO_BASE_PATH Scenario.env +++ "sub9-api" in
  let run := checkoutBranch h Scenario.env "sub9-api" "release/2.0.0" Scenario.start in
  let notice := ConsoleLog [Str "Stashing uncommitted changes..."] in
  (In (Invoke (Git dir Stash)) (trace run) <-> false = false)
  /\ (In notice (trace run) <-> false = false)
  /\ (false = false ->
      exists rest,
        trace run = Invoke (SimpleGit dir) :: Invoke (Git dir Status)
                      :: notice :: Invoke (Git dir Stash) :: rest).
Proof.
  refine (stash_exactly_when_not_clean
            _ (Scenario.handle (Scenario.pull_fails_in "sub9-api")) Scenario.env
            "sub9-api" "release/2.0.0" Scenario.start tt _ {| isClean := false |} _ _ _).
  - reflexivity.
  - reflexivity.
Defined.

Lemma pr_endpoint_of_a_plain_name_witness :
  trace (createBitbucketPr (Scenario.handle Scenario.post_fails) Scenario.env
           (Some "2.0.0") "some-other-repo" Scenario.start)
  = [Invoke (AxiosPost
               "https://api.bitbucket.org/2.0/repositories/starlinglabs/some-other-repo/pullrequests"
               (BITBUCKET_API_CREATE_PR_REQUEST_DATA (Some "2.0.0"))
               {| auth_username := Some "bot"; auth_password := Some "secret" |})].
Proof.
  refine (pr_endpoint_of_a_plain_name
            _ (Scenario.handle Scenario.post_fails) Scenario.env (Some "2.0.0")
            "some-other-repo" Scenario.start _).
  reflexivity.
Defined.

Lemma success_notice_only_after_the_push_witness :
  let t := trace (createReleaseBranches (Scenario.handle (Scenario.pull_fails_in "developer-api"))
                    Scenario.env (Some "2.0.0") Scenario.start) in
  In "storefront-api" WHITELISTED_REPOS
  /\ In (Invoke (Git (REPO_BASE_PATH Scenario.env +++ "storefront-api")
                     (Push "origin" (releaseBranchName (Some "2.0.0")) []))) t.
Proof.
  refine (success_notice_only_after_the_push
            _ (Scenario.handle (Scenario.pull_fails_in "developer-api")) Scenario.env
            (Some "2.0.0") Scenario.start "storefront-api" _).
  vm_compute. do 25 right. left. reflexivity.
Defined.

Example object_lists_array_indices_first :
  map fst (Js.obj_set (Js.obj_set (Js.obj_set (Js.obj_set [] "DC-1" 1) "2" 2) "007" 3) "1" 4)
  = ["1"; "2"; "DC-1"; "007"]
  /\ Js.obj_set [("2", 2); ("DC-1", 1)] "DC-1" 5 = [("2", 2); ("DC-1", 5)].
Proof. split; reflexivity. Qed.
